(** * The journal / memo / task store of journal-project2

    A shallow embedding of [app2.js] (and of [app.js], which has the same
    storage wrapper and the same actions except [editMemo]).

    The program keeps three IndexedDB object stores and talks to them through
    five promise wrappers ([idbGetAll], [idbAdd], [idbPut], [idbDelete],
    [idbIndexGetAll]).  The wrappers are translated line by line; the browser
    side of a request (key generator, in-line keys, unique indexes) follows the
    algorithms of the Indexed Database API ("store a record into an object
    store", "generate a key", "possibly update the key generator").

    Modelling choices, all local to this file:
    - a JavaScript object is a finite map from property names to values;
    - numbers are the integers (the program only ever stores generated keys
      and the flags 0 and 1) plus [NaN];
    - a string value is a sequence of UTF-16 code units, each written as the
      natural number it holds; property and index names, which the program
      text spells out, are kept as literals;
    - an [async] function is a state transformer on a [world] returning how
      its promise settles; the single UI actor awaits every call, so calls do
      not interleave;
    - every wrapper call opens its own transaction and its [onerror] handler
      does not call [preventDefault], so a failing request aborts its
      transaction and leaves the database as it was. *)

From stdpp Require Import base option list gmap strings fin_maps sorting.
From Stdlib Require Import ZArith Lia Ascii String.

Local Open Scope string_scope.
Local Open Scope Z_scope.

(** ** Strings *)

(** A code unit of a string is a number below [2 ^ 16]; nothing in the
    program computes with code units, it only compares them. *)
Definition code_unit : Type := N.

Definition utf16 : Type := list code_unit.

#[global] Instance utf16_eq_dec : EqDecision utf16 := list_eq_dec.
#[global] Instance utf16_countable : Countable utf16 := list_countable.

(** The code unit of a character of the program text. *)
Definition char (c : Ascii.ascii) : code_unit := Ascii.N_of_ascii c.

(** The string a literal of the program text denotes. *)
Definition lit (s : string) : utf16 := char <$> list_ascii_of_string s.

Coercion lit : string >-> utf16.

(** ** JavaScript values and objects *)

Inductive value : Type :=
  | Undefined
  | Null
  | Bool (b : bool)
  | Num (z : Z)
  | NaN
  | Str (s : utf16).

#[global] Instance value_eq_dec : EqDecision value.
Proof. solve_decision. Defined.

(** Records handed to and returned by the stores. *)
Abbreviation obj := (gmap string value).

(** Property read [o.p]: an absent property reads as [undefined]. *)
Definition get (o : obj) (p : string) : value := default Undefined (o !! p).

(** [ToBoolean], as used by [!v] and [c ? a : b]. *)
Definition truthy (v : value) : bool :=
  match v with
  | Undefined | Null | NaN => false
  | Bool b => b
  | Num z => negb (z =? 0)
  | Str s => negb (bool_decide (s = []))
  end.

(** The [===] operator. *)
Definition strict_eq (a b : value) : bool :=
  match a, b with
  | Undefined, Undefined | Null, Null => true
  | Bool x, Bool y => Bool.eqb x y
  | Num x, Num y => x =? y
  | Str x, Str y => bool_decide (x = y)
  | _, _ => false
  end.

(** ** [String.prototype.trim] *)

(** The code units [trim] strips: the white space and the line terminators
    of ECMAScript.  Each of them is a single code unit. *)
Definition is_whitespace (c : code_unit) : bool :=
  ((0x0009 <=? c) && (c <=? 0x000D)     (* TAB, LF, VT, FF, CR *)
   || (c =? 0x0020)                     (* space *)
   || (c =? 0x00A0)                     (* no-break space *)
   || (c =? 0x1680)                     (* ogham space mark *)
   || (0x2000 <=? c) && (c <=? 0x200A)  (* en quad .. hair space *)
   || (c =? 0x2028) || (c =? 0x2029)    (* line and paragraph separator *)
   || (c =? 0x202F)                     (* narrow no-break space *)
   || (c =? 0x205F)                     (* medium mathematical space *)
   || (c =? 0x3000)                     (* ideographic space *)
   || (c =? 0xFEFF))%N.                 (* zero width no-break space *)

Fixpoint trimStart (s : utf16) : utf16 :=
  match s with
  | [] => []
  | c :: s' => if is_whitespace c then trimStart s' else s
  end.

Definition trimEnd (s : utf16) : utf16 := reverse (trimStart (reverse s)).

Definition trim (s : utf16) : utf16 := trimEnd (trimStart s).

Fixpoint all_whitespace (s : utf16) : bool :=
  match s with
  | [] => true
  | c :: s' => is_whitespace c && all_whitespace s'
  end.

(** ** Keys *)

(** The values that are valid IndexedDB keys here: numbers other than [NaN]
    and strings. *)
Inductive key : Type :=
  | KNum (z : Z)
  | KStr (s : utf16).

#[global] Instance key_eq_dec : EqDecision key.
Proof. solve_decision. Defined.

#[global] Instance key_countable : Countable key.
Proof.
  refine (inj_countable'
    (λ k, match k with KNum z => inl z | KStr s => inr s end)
    (λ x, match x with inl z => KNum z | inr s => KStr s end) _).
  by intros [].
Defined.

(** "Convert a value to a key". *)
Definition to_key (v : value) : option key :=
  match v with
  | Num z => Some (KNum z)
  | Str s => Some (KStr s)
  | _ => None
  end.

Definition of_key (k : key) : value :=
  match k with
  | KNum z => Num z
  | KStr s => Str s
  end.

(** Strings compared code unit by code unit; a proper prefix comes first. *)
Fixpoint code_units_leb (x y : utf16) : bool :=
  match x, y with
  | [], _ => true
  | _ :: _, [] => false
  | a :: x', b :: y' => (a <? b)%N || (a =? b)%N && code_units_leb x' y'
  end.

(** Key order: numbers before strings, strings by code unit. *)
Definition key_leb (a b : key) : bool :=
  match a, b with
  | KNum x, KNum y => x <=? y
  | KNum _, KStr _ => true
  | KStr _, KNum _ => false
  | KStr x, KStr y => code_units_leb x y
  end.

Definition entry_le (a b : key * obj) : Prop := key_leb a.1 b.1 = true.

#[global] Instance entry_le_dec : RelDecision entry_le.
Proof. intros a b. unfold entry_le. apply _. Defined.

(** "Extract a key from a value using a key path": the property is missing
    (or [undefined]), holds something that is not a key, or holds a key. *)
Inductive extracted : Type :=
  | Absent
  | Invalid
  | Key (k : key).

Definition extract_key (o : obj) (path : string) : extracted :=
  match o !! path with
  | None | Some Undefined => Absent
  | Some v => match to_key v with
              | Some k => Key k
              | None => Invalid
              end
  end.

(** The key under which an index files a record, if it files it at all. *)
Definition index_key (o : obj) (path : string) : option key :=
  match extract_key o path with
  | Key k => Some k
  | _ => None
  end.

(** ** The schema created by [openDB] *)

Inductive store_name : Type := Jour | Memos | Tasks.

#[global] Instance store_name_eq_dec : EqDecision store_name.
Proof. solve_decision. Defined.

Record index : Type := Index {
  ix_name : string;
  ix_path : string;
  ix_unique : bool
}.

Definition keyPath (s : store_name) : string :=
  match s with
  | Jour => "jour_id"
  | Memos => "memo_id"
  | Tasks => "id"
  end.

Definition autoIncrement (s : store_name) : bool := true.

Definition indexes (s : store_name) : list index :=
  match s with
  | Jour => [Index "jour_title" "jour_title" true]
  | Memos => [Index "jour_title" "jour_title" false]
  | Tasks => [Index "jour_title" "jour_title" false; Index "done" "done" false]
  end.

(** An object store: the current number of its key generator and its
    records. *)
Record store : Type := Store {
  gen : Z;
  recs : gmap key obj
}.

Record database : Type := Database {
  st_jour : store;
  st_memos : store;
  st_tasks : store
}.

Definition objectStore (d : database) (s : store_name) : store :=
  match s with
  | Jour => st_jour d
  | Memos => st_memos d
  | Tasks => st_tasks d
  end.

Definition with_store (s : store_name) (st : store) (d : database) : database :=
  match s with
  | Jour => Database st (st_memos d) (st_tasks d)
  | Memos => Database (st_jour d) st (st_tasks d)
  | Tasks => Database (st_jour d) (st_memos d) st
  end.

Definition new_store : store := Store 1 ∅.

(** The database right after [onupgradeneeded] has run on first open. *)
Definition upgraded : database := Database new_store new_store new_store.

(** ** Request errors *)

(** Failures of the storage device itself. *)
Inductive device_fault : Type := QuotaExceededError | UnknownError.

Inductive error : Type :=
  | DataError
  | ConstraintError
  | NotFoundError
  | DeviceFailure (f : device_fault).

#[global] Instance device_fault_eq_dec : EqDecision device_fault.
Proof. solve_decision. Defined.

#[global] Instance error_eq_dec : EqDecision error.
Proof. solve_decision. Defined.

(** ** The object-store algorithms *)

Definition max_generated : Z := 2 ^ 53.

(** "Possibly update the key generator" with an explicit key. *)
Definition possibly_update (k : key) (g : Z) : Z :=
  match k with
  | KNum z => let v := Z.min z max_generated in
              if g <=? v then v + 1 else g
  | KStr _ => g
  end.

(** Some other record is filed under the same key in a unique index. *)
Definition clashes (s : store_name) (k : key) (v : obj) (m : gmap key obj) : Prop :=
  map_Exists (λ k' r,
    k' ≠ k ∧
    Exists (λ ix, ix_unique ix = true ∧
                  is_Some (index_key v (ix_path ix)) ∧
                  index_key r (ix_path ix) = index_key v (ix_path ix))
           (indexes s)) m.

#[global] Instance clashes_dec s k v m : Decision (clashes s k v m).
Proof. unfold clashes. apply _. Defined.

(** "Store a record into an object store".  [ek] is what the key path gave
    on the value; [no_overwrite] is set by [add] and clear for [put]. *)
Definition store_record (no_overwrite : bool) (s : store_name)
    (ek : option key) (v : obj) (st : store) : error + key * store :=
  match
    match ek with
    | None =>
        if max_generated <? gen st then inl ConstraintError
        else inr (KNum (gen st), <[keyPath s := Num (gen st)]> v, gen st + 1)
    | Some k => inr (k, v, possibly_update k (gen st))
    end
  with
  | inl e => inl e
  | inr (k, v', g') =>
      if no_overwrite && bool_decide (is_Some (recs st !! k)) then inl ConstraintError
      else if bool_decide (clashes s k v' (recs st)) then inl ConstraintError
      else inr (k, Store g' (<[k := v']> (recs st)))
  end.

(** The records of a store in ascending key order, as [getAll] lists them. *)
Definition records (st : store) : list obj :=
  (merge_sort entry_le (map_to_list (recs st))).*2.

(** The records an index files under key [k], in primary-key order. *)
Definition index_records (path : string) (k : key) (st : store) : list obj :=
  filter (λ r, index_key r path = Some k) (records st).

Definition find_index (s : store_name) (name : string) : option index :=
  List.find (λ ix, String.eqb (ix_name ix) name) (indexes s).

(** ** The world an action runs in *)

Inductive toast_msg : Type :=
  | JourCreated | JourExists | MemoAdded | EmptyNotSaved | MemoUpdated
  | TaskAdded | JourDeleted | MemoDeleted | TaskDeleted | Started.

(** The calls made to the storage wrappers, in the order they are made. *)
Inductive call : Type :=
  | GetAll (storeName : store_name)
  | Add (storeName : store_name) (v : obj)
  | Put (storeName : store_name) (v : obj)
  | Delete (storeName : store_name) (k : value)
  | IndexGetAll (storeName : store_name) (indexName : string) (indexValue : value).

Record world : Type := World {
  db : database;                        (* contents of the opened database *)
  currentJourTitle : value;             (* the global of the same name *)
  todayPill : value;                    (* text of #todayPill *)
  heroTitle : value;                    (* the title shown in #heroTitle *)
  toasts : list toast_msg;              (* toasts shown so far *)
  today : utf16;                        (* what todayISO() returns *)
  now : utf16;                          (* what nowTime() returns *)
  device : list (option device_fault);  (* fate of the coming requests *)
  dialog : list (option utf16);         (* coming dialog answers: None is
                                           cancel, Some s is OK with text s *)
  calls : list call                     (* wrapper calls made so far *)
}.

Definition set_db (d : database) (w : world) : world :=
  World d (currentJourTitle w) (todayPill w) (heroTitle w) (toasts w)
        (today w) (now w) (device w) (dialog w) (calls w).
Definition set_currentJourTitle (t : value) (w : world) : world :=
  World (db w) t (todayPill w) (heroTitle w) (toasts w)
        (today w) (now w) (device w) (dialog w) (calls w).
Definition set_todayPill (t : value) (w : world) : world :=
  World (db w) (currentJourTitle w) t (heroTitle w) (toasts w)
        (today w) (now w) (device w) (dialog w) (calls w).
Definition set_heroTitle (t : value) (w : world) : world :=
  World (db w) (currentJourTitle w) (todayPill w) t (toasts w)
        (today w) (now w) (device w) (dialog w) (calls w).
Definition add_toast (m : toast_msg) (w : world) : world :=
  World (db w) (currentJourTitle w) (todayPill w) (heroTitle w) (toasts w ++ [m])
        (today w) (now w) (device w) (dialog w) (calls w).
Definition set_device (l : list (option device_fault)) (w : world) : world :=
  World (db w) (currentJourTitle w) (todayPill w) (heroTitle w) (toasts w)
        (today w) (now w) l (dialog w) (calls w).
Definition set_dialog (l : list (option utf16)) (w : world) : world :=
  World (db w) (currentJourTitle w) (todayPill w) (heroTitle w) (toasts w)
        (today w) (now w) (device w) l (calls w).
Definition add_call (c : call) (w : world) : world :=
  World (db w) (currentJourTitle w) (todayPill w) (heroTitle w) (toasts w)
        (today w) (now w) (device w) (dialog w) (calls w ++ [c]).

(** ** Promises *)

(** How the promise of an [async] call settles; [Pending] is a promise that
    never settles (a dialog nobody closes). *)
Inductive outcome (A : Type) : Type :=
  | Resolved (a : A)
  | Rejected (e : error)
  | Pending.
Arguments Resolved {A} a.
Arguments Rejected {A} e.
Arguments Pending {A}.

Definition async (A : Type) : Type := world → outcome A * world.

#[global] Instance async_ret : MRet async := λ A a w, (Resolved a, w).

(** [await]: the rest of the function runs only when the promise resolves. *)
#[global] Instance async_bind : MBind async := λ A B f m w,
  match m w with
  | (Resolved a, w') => f a w'
  | (Rejected e, w') => (Rejected e, w')
  | (Pending, w') => (Pending, w')
  end.

Definition reject {A} (e : error) : async A := λ w, (Rejected e, w).

Definition effect (f : world → world) : async unit := λ w, (Resolved (), f w).

Definition read {A} (f : world → A) : async A := λ w, (Resolved (f w), w).

(** [try { body } catch { handler }] *)
Definition try_catch {A} (body : async A) (handler : error → async A) : async A :=
  λ w, match body w with
       | (Rejected e, w') => handler e w'
       | r => r
       end.

(** [for (const x of l) await body(x)] *)
Fixpoint for_of {A} (l : list A) (body : A → async unit) : async unit :=
  match l with
  | [] => mret ()
  | x :: l' => body x;; for_of l' body
  end.

Definition first_settled (o os : outcome unit) : outcome unit :=
  match o with
  | Rejected e => Rejected e
  | Resolved _ => os
  | Pending => match os with Rejected e => Rejected e | _ => Pending end
  end.

(** [Promise.all]: every promise is started, in order; the result rejects
    with the first rejection. *)
Fixpoint promise_all (ps : list (async unit)) : async unit :=
  λ w, match ps with
       | [] => (Resolved (), w)
       | p :: ps' =>
           let '(o, w1) := p w in
           let '(os, w2) := promise_all ps' w1 in
           (first_settled o os, w2)
       end.

(** ** The IndexedDB wrappers *)

(** One request in a transaction of its own on [storeName]: the device may
    fail it; otherwise the operation runs, and an error from the operation
    aborts the transaction, so the store is written only on success. *)
Definition next_fault (w : world) : option device_fault :=
  match device w with
  | Some f :: _ => Some f
  | _ => None
  end.

Definition request {A} (storeName : store_name)
    (op : store → error + A * store) : async A :=
  λ w, let w' := set_device (tail (device w)) w in
       match next_fault w with
       | Some f => (Rejected (DeviceFailure f), w')
       | None =>
           match op (objectStore (db w) storeName) with
           | inl e => (Rejected e, w')
           | inr (a, st) => (Resolved a, set_db (with_store storeName st (db w)) w')
           end
       end.

(** What [add] and [put] check on the value before they place the request:
    a key-path property that is not a key raises [DataError]; a missing one
    is fine when the store has a key generator. *)
Definition key_of_value (storeName : store_name) (v : obj) : error + option key :=
  match extract_key v (keyPath storeName) with
  | Invalid => inl DataError
  | Absent => if autoIncrement storeName then inr None else inl DataError
  | Key k => inr (Some k)
  end.

Definition idbGetAll (storeName : store_name) : async (list obj) :=
  effect (add_call (GetAll storeName));;
  request storeName (λ st, inr (records st, st)).

Definition idbAdd (storeName : store_name) (v : obj) : async value :=
  effect (add_call (Add storeName v));;
  match key_of_value storeName v with
  | inl e => reject e
  | inr ek =>
      k ← request storeName (store_record true storeName ek v);
      mret (of_key k)
  end.

Definition idbPut (storeName : store_name) (v : obj) : async value :=
  effect (add_call (Put storeName v));;
  match key_of_value storeName v with
  | inl e => reject e
  | inr ek =>
      k ← request storeName (store_record false storeName ek v);
      mret (of_key k)
  end.

Definition idbDelete (storeName : store_name) (k : value) : async unit :=
  effect (add_call (Delete storeName k));;
  match to_key k with
  | None => reject DataError
  | Some k' =>
      request storeName (λ st, inr ((), Store (gen st) (delete k' (recs st))))
  end.

Definition idbIndexGetAll (storeName : store_name) (indexName : string)
    (indexValue : value) : async (list obj) :=
  effect (add_call (IndexGetAll storeName indexName indexValue));;
  match find_index storeName indexName with
  | None => reject NotFoundError
  | Some idx =>
      match to_key indexValue with
      | None => reject DataError
      | Some range =>
          request storeName (λ st, inr (index_records (ix_path idx) range st, st))
      end
  end.

(** [indexedDB.open(DB_NAME, DB_VER)]: with no database on disk the upgrade
    handler creates the three stores; an existing one is opened as it is. *)
Definition openDB (disk : option database) : database :=
  match disk with
  | None => upgraded
  | Some d => d
  end.

(** ** Modal, clock, toast *)

(** [promptModal]: resolves to the trimmed input on OK and to [null]
    otherwise.  Whatever [initial] was, the text found in the input when the
    dialog closes is the user's. *)
Definition promptModal (initial : value) : async value :=
  λ w, match dialog w with
       | [] => (Pending, w)
       | Some text :: rest => (Resolved (Str (trim text)), set_dialog rest w)
       | None :: rest => (Resolved Null, set_dialog rest w)
       end.

Definition todayISO : async utf16 := read today.
Definition nowTime : async utf16 := read now.
Definition toast (m : toast_msg) : async unit := effect (add_toast m).

(** ** Rendering *)

(** Of a render only its storage traffic is modelled: the rows it paints are
    computed from the fetched list and are not kept in the world. *)
Definition renderJour : async unit :=
  rows ← idbGetAll Jour;
  mret ().

Definition renderMemos : async unit :=
  t ← read currentJourTitle;
  memos ← idbIndexGetAll Memos "jour_title" t;
  mret ().

Definition renderTasks : async unit :=
  t ← read currentJourTitle;
  tasks ← idbIndexGetAll Tasks "jour_title" t;
  mret ().

Definition renderAll : async unit :=
  t ← read currentJourTitle;
  effect (set_heroTitle t);;
  promise_all [renderJour; renderMemos; renderTasks].

(** ** Actions *)

Definition ensureTodayJour : async unit :=
  title ← todayISO;
  effect (set_currentJourTitle (Str title));;
  effect (set_todayPill (Str title));;
  try_catch
    (created_at ← nowTime;
     idbAdd Jour {[ "jour_title" := Str title; "created_at" := Str created_at ]};;
     toast JourCreated)
    (λ _, toast JourExists);;
  renderAll.

Definition setCurrentJour (title : value) : async unit :=
  effect (set_currentJourTitle title);;
  effect (set_todayPill title);;
  effect (set_heroTitle title);;
  renderAll.

Definition addMemo : async unit :=
  v ← promptModal (Str "");
  if negb (truthy v) then mret () else
  jour_title ← read currentJourTitle;
  created_at ← nowTime;
  idbAdd Memos {[ "memo_title" := v; "jour_title" := jour_title;
                  "created_at" := Str created_at ]};;
  toast MemoAdded;;
  renderMemos.

Definition editMemo (memo : obj) : async unit :=
  v ← promptModal (get memo "memo_title");
  if strict_eq v Null then mret () else
  if negb (truthy v) then toast EmptyNotSaved else
  idbPut Memos (<["memo_title" := v]> memo);;
  toast MemoUpdated;;
  renderMemos.

Definition addTask : async unit :=
  v ← promptModal (Str "");
  if negb (truthy v) then mret () else
  jour_title ← read currentJourTitle;
  created_at ← nowTime;
  idbAdd Tasks {[ "title" := v; "done" := Num 0; "jour_title" := jour_title;
                  "created_at" := Str created_at ]};;
  toast TaskAdded;;
  renderTasks.

Definition deleteJour (jourTitle : value) : async unit :=
  allJour ← idbGetAll Jour;
  match List.find (λ j, strict_eq (get j "jour_title") jourTitle) allJour with
  | None => mret ()
  | Some target =>
      memos ← idbIndexGetAll Memos "jour_title" jourTitle;
      tasks ← idbIndexGetAll Tasks "jour_title" jourTitle;
      for_of memos (λ m, idbDelete Memos (get m "memo_id"));;
      for_of tasks (λ t, idbDelete Tasks (get t "id"));;
      idbDelete Jour (get target "jour_id");;
      toast JourDeleted;;
      ensureTodayJour
  end.

Definition deleteMemo (memoId : value) : async unit :=
  idbDelete Memos memoId;;
  toast MemoDeleted;;
  renderMemos.

Definition deleteTask (taskId : value) : async unit :=
  idbDelete Tasks taskId;;
  toast TaskDeleted;;
  renderTasks.

Definition toggleTaskDone (task : obj) : async unit :=
  idbPut Tasks (<["done" := if truthy (get task "done") then Num 0 else Num 1]> task);;
  renderTasks.

(** [main], once [openDB] has resolved and the buttons are wired. *)
Definition main : async unit :=
  ensureTodayJour;;
  toast Started.

(** ** Definitions used by the statements *)

(** What holds of every store the wrappers can produce: a record carries its
    own key at the key path, the key generator is ahead of every numeric key,
    and no two records share a key of a unique index. *)
Record store_wf (s : store_name) (st : store) : Prop := StoreWf {
  wf_inline : ∀ k r, recs st !! k = Some r → r !! keyPath s = Some (of_key k);
  wf_gen : ∀ z r, recs st !! KNum z = Some r → Z.min z max_generated < gen st;
  wf_unique : ∀ ix k1 k2 r1 r2,
    ix ∈ indexes s → ix_unique ix = true →
    recs st !! k1 = Some r1 → recs st !! k2 = Some r2 →
    is_Some (index_key r1 (ix_path ix)) →
    index_key r1 (ix_path ix) = index_key r2 (ix_path ix) →
    k1 = k2
}.

Definition database_wf (d : database) : Prop := ∀ s, store_wf s (objectStore d s).

(** An action that keeps a consistent database consistent. *)
Definition preserves_wf {A} (m : async A) : Prop :=
  ∀ w, database_wf (db w) → database_wf (db (m w).2).

(** Unfolds the promise plumbing of an action. *)
Ltac async_simpl :=
  unfold mbind, mret, async_bind, async_ret, effect, read, reject, toast,
    todayISO, nowTime in *;
  simpl in *.

(** The value [toggleTaskDone] puts: [{ ...task, done: task.done ? 0 : 1 }]. *)
Definition toggled (task : obj) : obj :=
  <["done" := if truthy (get task "done") then Num 0 else Num 1]> task.

(** A world used to exercise the statements: one journal, one memo and one
    task for 2024-01-01, each under key 1; no fault in store. *)
Definition sample_jour : obj :=
  {[ "jour_id" := Num 1; "jour_title" := Str "2024-01-01";
     "created_at" := Str "09:00" ]}.
Definition sample_memo : obj :=
  {[ "memo_id" := Num 1; "memo_title" := Str "x";
     "jour_title" := Str "2024-01-01"; "created_at" := Str "09:01" ]}.
Definition sample_task : obj :=
  {[ "id" := Num 1; "title" := Str "y"; "done" := Num 0;
     "jour_title" := Str "2024-01-01"; "created_at" := Str "09:02" ]}.
Definition sample_db : database :=
  Database (Store 2 {[ KNum 1 := sample_jour ]})
           (Store 2 {[ KNum 1 := sample_memo ]})
           (Store 2 {[ KNum 1 := sample_task ]}).
Definition sample_world : world :=
  World sample_db (Str "2024-01-01") (Str "2024-01-01") (Str "2024-01-01") []
        "2024-01-01" "10:00" [] [] [].

(** Inserting a list of values one after the other, each insert awaited
    whether it settles well or not; the outcome of each is kept. *)
Fixpoint add_each (s : store_name) (vs : list obj) (w : world)
    : list (outcome value) * world :=
  match vs with
  | [] => ([], w)
  | v :: vs' =>
      let '(o, w1) := idbAdd s v w in
      let '(os, w2) := add_each s vs' w1 in
      (o :: os, w2)
  end.

(** The keys the successful inserts resolved to, in insertion order. *)
Definition assigned (os : list (outcome value)) : list value :=
  omap (λ o, match o with Resolved k => Some k | _ => None end) os.

(** A unique index files the value [v] under the very key it files the
    record [r] under, so the store cannot hold both. *)
Definition collides (s : store_name) (v r : obj) : Prop :=
  Exists (λ ix, ix_unique ix = true ∧
                is_Some (index_key v (ix_path ix)) ∧
                index_key r (ix_path ix) = index_key v (ix_path ix))
         (indexes s).

#[global] Instance collides_dec s v r : Decision (collides s v r).
Proof. unfold collides. apply _. Defined.

(** The key generator is ahead of every numeric key of the store. *)
Definition ahead (st : store) : Prop :=
  ∀ z r, recs st !! KNum z = Some r → Z.min z max_generated < gen st.

(** The world after the wrapper calls [cs] have been made, in that order. *)
Definition add_calls (cs : list call) (w : world) : world :=
  World (db w) (currentJourTitle w) (todayPill w) (heroTitle w) (toasts w)
        (today w) (now w) (device w) (dialog w) (calls w ++ cs).

(** The record [ensureTodayJour] tries to insert, and the world it tries it
    in. *)
Definition today_record (w : world) : obj :=
  {[ "jour_title" := Str (today w); "created_at" := Str (now w) ]}.

Definition ensure_prelude (w : world) : world :=
  set_todayPill (Str (today w)) (set_currentJourTitle (Str (today w)) w).

(** The records left once the keys [ks] have been deleted one by one. *)
Definition remove_keys (ks : list key) (m : gmap key obj) : gmap key obj :=
  foldl (λ m k, delete k m) m ks.

(** The key a record carries at a key path. *)
Definition key_at (p : string) (r : obj) : option key := to_key (get r p).

(** The records of a store that do not belong to journal [T]. *)
Definition without_journal (T : utf16) (st : store) : store :=
  Store (gen st) (filter (λ kr, kr.2 !! "jour_title" ≠ Some (Str T)) (recs st)).

(** The wrapper calls of a cascade, in order, up to the delete of the
    journal record. *)
Definition cascade_calls (T : utf16) (memos tasks : list obj) (target : obj)
    : list call :=
  ([GetAll Jour;
    IndexGetAll Memos "jour_title" (Str T);
    IndexGetAll Tasks "jour_title" (Str T)]
   ++ ((λ m, Delete Memos (get m "memo_id")) <$> memos)
   ++ ((λ t, Delete Tasks (get t "id")) <$> tasks)
   ++ [Delete Jour (get target "jour_id")])%list.

(** The scenario: on a fresh database, on a day [d] at time [t], one journal,
    one memo and one task for 2024-01-01 are inserted. *)
Definition scenario_start (d t : utf16) : world :=
  World upgraded (Str d) (Str d) (Str d) [] d t [] [] [].

Definition scenario (d t : utf16) : world :=
  let w1 := (idbAdd Jour {[ "jour_title" := Str "2024-01-01" ]}
                    (scenario_start d t)).2 in
  let w2 := (idbAdd Memos {[ "memo_title" := Str "x";
                             "jour_title" := Str "2024-01-01" ]} w1).2 in
  (idbAdd Tasks {[ "title" := Str "y"; "done" := Num 0;
                   "jour_title" := Str "2024-01-01" ]} w2).2.

(** ** [escapeHTML] *)

(** The object literal of [escapeHTML]: the replacement of each of the five
    characters its pattern matches (ampersand, less-than, greater-than,
    double quote, apostrophe). *)
Definition entity (c : code_unit) : option utf16 :=
  if N.eqb c (char "&") then Some (lit "&amp;")
  else if N.eqb c (char "<") then Some (lit "&lt;")
  else if N.eqb c (char ">") then Some (lit "&gt;")
  else if N.eqb c (char "034") then Some (lit "&quot;")
  else if N.eqb c (char "'") then Some (lit "&#39;")
  else None.

(** [s.replace(pattern, c => table[c])] on a string, every match replaced
    ([app.js]; in [app2.js] the argument first goes through [String(s ?? ...)],
    which leaves a string as it is). *)
Fixpoint escapeHTML (s : utf16) : utf16 :=
  match s with
  | [] => []
  | c :: s' =>
      match entity c with
      | Some e => (e ++ escapeHTML s')%list
      | None => c :: escapeHTML s'
      end
  end.

(** ** User sessions *)

(** What the user can trigger: the controls wired by [main] and by the
    renders.  [EditMemo] and [Toggle] carry the record of the row clicked;
    [RefreshJournals] is the refresh button and the search box, [RefreshTasks]
    the hide-done box. *)
Inductive action : Type :=
  | NewToday
  | RefreshJournals
  | RefreshTasks
  | Open (title : value)
  | AddMemo
  | EditMemo (memo : obj)
  | AddTask
  | DeleteJournal (title : value)
  | DeleteMemo (memoId : value)
  | DeleteTask (taskId : value)
  | Toggle (task : obj).

Definition handler (a : action) : async unit :=
  match a with
  | NewToday => ensureTodayJour
  | RefreshJournals => renderJour
  | RefreshTasks => renderTasks
  | Open title => setCurrentJour title
  | AddMemo => addMemo
  | EditMemo memo => editMemo memo
  | AddTask => addTask
  | DeleteJournal title => deleteJour title
  | DeleteMemo memoId => deleteMemo memoId
  | DeleteTask taskId => deleteTask taskId
  | Toggle task => toggleTaskDone task
  end.

(** The world after the actions have run one after the other, each to its
    end, however it settled. *)
Fixpoint session (acts : list action) (w : world) : world :=
  match acts with
  | [] => w
  | a :: acts' => session acts' (handler a w).2
  end.

(** An action that passes a failure [f] of the device on to its caller, the
    failed request [c] being the last thing it does: nothing is written, no
    toast is shown, and [c] is the only call made and the only request
    placed, so nothing is fetched again to re-render. *)
Definition propagates (f : device_fault) (c : call) (a : async unit) (w : world)
    : Prop :=
  (a w).1 = Rejected (DeviceFailure f) ∧
  db (a w).2 = db w ∧
  toasts (a w).2 = toasts w ∧
  calls (a w).2 = (calls w ++ [c])%list ∧
  device (a w).2 = tail (device w).

(** * Properties *)

(** ** Keys and key paths *)

Lemma to_key_of_key k : to_key (of_key k) = Some k.
Proof. by destruct k. Qed.

Lemma to_key_Some v k : to_key v = Some k → v = of_key k.
Proof. destruct v; simpl; intros; by simplify_eq. Qed.

Lemma of_key_defined k : of_key k ≠ Undefined.
Proof. by destruct k. Qed.

Lemma extract_key_Key o p k : extract_key o p = Key k ↔ o !! p = Some (of_key k).
Proof.
  unfold extract_key. split.
  - destruct (o !! p) as [v|]; [|done].
    destruct v; simpl; intros; by simplify_eq.
  - intros ->. by destruct k.
Qed.

Lemma index_key_Some o p k : index_key o p = Some k ↔ o !! p = Some (of_key k).
Proof.
  rewrite <- extract_key_Key. unfold index_key.
  destruct (extract_key o p); naive_solver.
Qed.

Lemma extract_key_insert o p z : extract_key (<[p := Num z]> o) p = Key (KNum z).
Proof. apply extract_key_Key. by rewrite lookup_insert_eq. Qed.

(** ** Worlds *)

Lemma set_device_same w : set_device (device w) w = w.
Proof. by destruct w. Qed.

Lemma set_db_same w : set_db (db w) w = w.
Proof. by destruct w. Qed.

Lemma with_store_same s d : with_store s (objectStore d s) d = d.
Proof. by destruct s, d. Qed.

Lemma objectStore_with_store s st d : objectStore (with_store s st d) s = st.
Proof. by destruct s. Qed.

Lemma objectStore_with_store_ne s s' st d :
  s ≠ s' → objectStore (with_store s st d) s' = objectStore d s'.
Proof. by destruct s, s'. Qed.

Lemma with_store_with_store s st st' d :
  with_store s st (with_store s st' d) = with_store s st d.
Proof. by destruct s. Qed.

(** A world whose device has no fault in store. *)
Lemma next_fault_nil w : device w = [] → next_fault w = None.
Proof. unfold next_fault. by intros ->. Qed.

Lemma request_sound {A} s (op : store → error + A * store) w :
  device w = [] →
  request s op w =
    match op (objectStore (db w) s) with
    | inl e => (Rejected e, w)
    | inr (a, st) => (Resolved a, set_db (with_store s st (db w)) w)
    end.
Proof.
  intros Hd. unfold request. rewrite (next_fault_nil _ Hd).
  replace (set_device (tail (device w)) w) with w; [done|].
  destruct w; simpl in *; by subst.
Qed.

(** ** The consistency invariant of a store *)

Lemma new_store_wf s : store_wf s new_store.
Proof. split; simpl; intros *; by rewrite ?lookup_empty. Qed.

Lemma upgraded_wf : database_wf upgraded.
Proof. intros []; apply new_store_wf. Qed.

Lemma possibly_update_ge k g : g ≤ possibly_update k g.
Proof. destruct k; simpl; [case_match|]; lia. Qed.

Lemma possibly_update_above z g : Z.min z max_generated < possibly_update (KNum z) g.
Proof. simpl. case_match; lia. Qed.

Lemma possibly_update_id z g :
  Z.min z max_generated < g → possibly_update (KNum z) g = g.
Proof. simpl. intros. case_match; lia. Qed.

Lemma clashes_intro s k v m ix k' r :
  ix ∈ indexes s → ix_unique ix = true →
  m !! k' = Some r → k' ≠ k →
  is_Some (index_key v (ix_path ix)) →
  index_key r (ix_path ix) = index_key v (ix_path ix) →
  clashes s k v m.
Proof.
  intros Hin Hu Hl Hne Hs He. exists k', r. split; [done|]. split; [done|].
  apply Exists_exists. by exists ix.
Qed.

Lemma clashes_elim s k v m :
  clashes s k v m →
  ∃ ix k' r, ix ∈ indexes s ∧ ix_unique ix = true ∧ m !! k' = Some r ∧ k' ≠ k ∧
             is_Some (index_key v (ix_path ix)) ∧
             index_key r (ix_path ix) = index_key v (ix_path ix).
Proof.
  intros (k' & r & Hl & Hne & Hex). apply Exists_exists in Hex as (ix & Hin & ? & ? & ?).
  by exists ix, k', r.
Qed.

(** Memos and tasks have no unique index, so nothing ever clashes there. *)
Lemma no_unique_no_clash s k v m :
  Forall (λ ix, ix_unique ix = false) (indexes s) → ¬ clashes s k v m.
Proof.
  intros Hall (ix & k' & r & Hin & Hu & _)%clashes_elim.
  rewrite Forall_forall in Hall. specialize (Hall _ Hin). congruence.
Qed.

Lemma insert_wf s st k v g' :
  store_wf s st →
  v !! keyPath s = Some (of_key k) →
  gen st ≤ g' →
  (∀ z, k = KNum z → Z.min z max_generated < g') →
  ¬ clashes s k v (recs st) →
  store_wf s (Store g' (<[k := v]> (recs st))).
Proof.
  intros [Hi Hg Hu] Hv Hle Hk Hc. split; simpl.
  - intros k0 r. rewrite lookup_insert. case_decide; intros; simplify_eq; eauto.
  - intros z r. rewrite lookup_insert. case_decide; intros; simplify_eq; eauto.
    specialize (Hg _ _ H0). lia.
  - intros ix k1 k2 r1 r2 Hin Hun. rewrite !lookup_insert.
    repeat case_decide; intros; simplify_eq; eauto.
    + destruct Hc. eapply clashes_intro; eauto; congruence.
    + destruct Hc. eapply clashes_intro; eauto. congruence.
Qed.

Lemma key_of_value_Some s v k :
  key_of_value s v = inr (Some k) → v !! keyPath s = Some (of_key k).
Proof.
  unfold key_of_value. destruct (extract_key v (keyPath s)) eqn:E; try done.
  intros; simplify_eq. by apply extract_key_Key.
Qed.

Lemma store_record_wf b s ek v st k st' :
  store_wf s st → key_of_value s v = inr ek →
  store_record b s ek v st = inr (k, st') → store_wf s st'.
Proof.
  intros Hwf Hek. unfold store_record. destruct ek as [k0|].
  - destruct (b && _); [done|]. case_bool_decide; [done|].
    intros; simplify_eq. apply insert_wf; auto using possibly_update_ge.
    + by apply key_of_value_Some.
    + intros z ->. apply possibly_update_above.
  - destruct (max_generated <? gen st) eqn:Hmax; [done|].
    destruct (b && _); [done|]. case_bool_decide; [done|].
    intros; simplify_eq. apply insert_wf; auto; try lia.
    + by rewrite lookup_insert_eq.
    + intros z [= <-]. lia.
Qed.

Lemma delete_wf s st k :
  store_wf s st → store_wf s (Store (gen st) (delete k (recs st))).
Proof.
  intros [Hi Hg Hu]. split; simpl.
  - intros k0 r [_ ?]%lookup_delete_Some. eauto.
  - intros z r [_ ?]%lookup_delete_Some. eauto.
  - intros ix k1 k2 r1 r2 ?? [_ ?]%lookup_delete_Some [_ ?]%lookup_delete_Some. eauto.
Qed.

Lemma with_store_wf s st d :
  database_wf d → store_wf s st → database_wf (with_store s st d).
Proof.
  intros Hd Hst s'. destruct (decide (s = s')) as [<-|Hne].
  - by rewrite objectStore_with_store.
  - by rewrite objectStore_with_store_ne.
Qed.

(** ** What the wrappers do to the world *)

(** The two fetch wrappers never write. *)
Lemma idbGetAll_db s w : db (idbGetAll s w).2 = db w.
Proof. unfold idbGetAll, request. async_simpl. case_match; [done|]. simpl. by rewrite with_store_same. Qed.

Lemma idbIndexGetAll_db s n v w : db (idbIndexGetAll s n v w).2 = db w.
Proof.
  unfold idbIndexGetAll, request. async_simpl.
  repeat case_match; simplify_eq; simpl; try done. by rewrite with_store_same.
Qed.

Lemma renderJour_db w : db (renderJour w).2 = db w.
Proof.
  unfold renderJour. async_simpl.
  pose proof (idbGetAll_db Jour w). by destruct (idbGetAll Jour w) as [[] ?].
Qed.

Lemma renderMemos_db w : db (renderMemos w).2 = db w.
Proof.
  unfold renderMemos. async_simpl.
  pose proof (idbIndexGetAll_db Memos "jour_title" (currentJourTitle w) w) as H.
  by destruct (idbIndexGetAll _ _ _ w) as [[] ?].
Qed.

Lemma renderTasks_db w : db (renderTasks w).2 = db w.
Proof.
  unfold renderTasks. async_simpl.
  pose proof (idbIndexGetAll_db Tasks "jour_title" (currentJourTitle w) w) as H.
  by destruct (idbIndexGetAll _ _ _ w) as [[] ?].
Qed.

Lemma renderAll_db w : db (renderAll w).2 = db w.
Proof.
  unfold renderAll. async_simpl.
  set (w0 := set_heroTitle _ w).
  pose proof (renderJour_db w0) as H1. destruct (renderJour w0) as [o1 w1].
  pose proof (renderMemos_db w1) as H2. destruct (renderMemos w1) as [o2 w2].
  pose proof (renderTasks_db w2) as H3. destruct (renderTasks w2) as [o3 w3].
  simpl in *. congruence.
Qed.

(** With no fault in store a request settles as its operation says. *)
Lemma idbGetAll_sound s w :
  device w = [] →
  idbGetAll s w = (Resolved (records (objectStore (db w) s)), add_call (GetAll s) w).
Proof.
  intros Hd. unfold idbGetAll. async_simpl. rewrite request_sound by done. simpl.
  rewrite with_store_same. by destruct w.
Qed.

Lemma idbIndexGetAll_sound s n v idx k w :
  device w = [] → find_index s n = Some idx → to_key v = Some k →
  idbIndexGetAll s n v w =
    (Resolved (index_records (ix_path idx) k (objectStore (db w) s)),
     add_call (IndexGetAll s n v) w).
Proof.
  intros Hd Hi Hk. unfold idbIndexGetAll. async_simpl. rewrite Hi, Hk.
  rewrite request_sound by done. simpl. rewrite with_store_same. by destruct w.
Qed.

Lemma idbDelete_sound s v k w :
  device w = [] → to_key v = Some k →
  idbDelete s v w =
    (Resolved (),
     set_db (with_store s (Store (gen (objectStore (db w) s))
                                 (delete k (recs (objectStore (db w) s)))) (db w))
            (add_call (Delete s v) w)).
Proof.
  intros Hd Hk. unfold idbDelete. async_simpl. rewrite Hk.
  by rewrite request_sound by done.
Qed.

(** A put of a value that carries key [k], when no unique index objects. *)
Lemma idbPut_keyed s v k w :
  next_fault w = None →
  v !! keyPath s = Some (of_key k) →
  ¬ clashes s k v (recs (objectStore (db w) s)) →
  idbPut s v w =
    (Resolved (of_key k),
     set_db (with_store s
               (Store (possibly_update k (gen (objectStore (db w) s)))
                      (<[k := v]> (recs (objectStore (db w) s)))) (db w))
            (set_device (tail (device w)) (add_call (Put s v) w))).
Proof.
  intros Hf Hv Hc. unfold idbPut, key_of_value.
  apply extract_key_Key in Hv. rewrite Hv. async_simpl.
  unfold request. simpl. change (next_fault (add_call (Put s v) w)) with (next_fault w).
  rewrite Hf. unfold store_record. simpl. by rewrite bool_decide_eq_false_2.
Qed.

Lemma tasks_no_clash k v m : ¬ clashes Tasks k v m.
Proof. apply no_unique_no_clash. simpl. by repeat constructor. Qed.

Lemma memos_no_clash k v m : ¬ clashes Memos k v m.
Proof. apply no_unique_no_clash. simpl. by repeat constructor. Qed.

(** ** Toggling a task *)

Lemma toggleTaskDone_unfold task k w :
  next_fault w = None →
  task !! "id" = Some (of_key k) →
  toggleTaskDone task w =
    renderTasks
      (set_db (with_store Tasks
                 (Store (possibly_update k (gen (st_tasks (db w))))
                        (<[k := toggled task]> (recs (st_tasks (db w))))) (db w))
              (set_device (tail (device w)) (add_call (Put Tasks (toggled task)) w))).
Proof.
  intros Hf Hid. unfold toggleTaskDone. fold (toggled task).
  unfold mbind at 1. unfold async_bind.
  rewrite (idbPut_keyed Tasks (toggled task) k); auto using tasks_no_clash.
  unfold toggled. by rewrite lookup_insert_ne.
Qed.

(** C9: one toggle of a stored task, whatever its [done] field holds (or
    fails to hold), stores the record with [done] set to 0 when the old value
    was truthy and to 1 when it was falsy or absent; so the stored flag is
    exactly 0 or exactly 1 afterwards. *)
Theorem toggleTaskDone_restores_flag (w : world) (k : key) (task : obj) :
  next_fault w = None →
  database_wf (db w) →
  recs (st_tasks (db w)) !! k = Some task →
  let stored := recs (st_tasks (db (toggleTaskDone task w).2)) !! k in
  let flag := (λ r, get r "done") <$> stored in
  stored = Some (<["done" := Num (if truthy (get task "done") then 0 else 1)]> task) ∧
  (flag = Some (Num 0) ∨ flag = Some (Num 1)) ∧
  (truthy (get task "done") = true → flag = Some (Num 0)) ∧
  (truthy (get task "done") = false → flag = Some (Num 1)) ∧
  (task !! "done" = None → flag = Some (Num 1)).
Proof.
  intros Hf Hwf Hst.
  pose proof (wf_inline _ _ (Hwf Tasks) _ _ Hst) as Hid. simpl in Hid.
  rewrite (toggleTaskDone_unfold task k) by done.
  rewrite renderTasks_db. simpl. rewrite lookup_insert_eq.
  assert (Hdone : ∀ d, get (<["done" := d]> task) "done" = d).
  { intros. unfold get. by rewrite lookup_insert_eq. }
  unfold toggled. simpl. rewrite Hdone. repeat split.
  - by destruct (truthy _).
  - destruct (truthy _); auto.
  - by intros ->.
  - by intros ->.
  - intros Hn. unfold get. by rewrite Hn.
Qed.

Lemma idbIndexGetAll_device s n v w :
  device w = [] → device (idbIndexGetAll s n v w).2 = [].
Proof.
  intros Hd. unfold idbIndexGetAll, request. async_simpl.
  repeat case_match; simplify_eq; simpl; by rewrite ?Hd.
Qed.

Lemma renderTasks_device w : device w = [] → device (renderTasks w).2 = [].
Proof.
  intros Hd. unfold renderTasks. async_simpl.
  pose proof (idbIndexGetAll_device Tasks "jour_title" (currentJourTitle w) w Hd).
  by destruct (idbIndexGetAll _ _ _ w) as [[] ?].
Qed.

Lemma store_eta st : Store (gen st) (recs st) = st.
Proof. by destruct st. Qed.

(** C5: toggling a stored task whose [done] is 0 or 1 twice, the second time
    on the record as the first toggle stored it, brings the database back to
    what it was; each toggle flips [done] and leaves the key, every other
    field and every other record alone. *)
Theorem toggleTaskDone_twice (w : world) (k : key) (task : obj) (d : Z) :
  device w = [] →
  database_wf (db w) →
  recs (st_tasks (db w)) !! k = Some task →
  task !! "done" = Some (Num d) →
  d = 0 ∨ d = 1 →
  let w1 := (toggleTaskDone task w).2 in
  ∃ task1,
    recs (st_tasks (db w1)) !! k = Some task1 ∧
    task1 !! "done" = Some (Num (1 - d)) ∧
    (∀ p, p ≠ "done" → task1 !! p = task !! p) ∧
    (∀ k', k' ≠ k → recs (st_tasks (db w1)) !! k' = recs (st_tasks (db w)) !! k') ∧
    let w2 := (toggleTaskDone task1 w1).2 in
    db w2 = db w ∧ recs (st_tasks (db w2)) !! k = Some task.
Proof.
  intros Hd Hwf Hst Hdone Hd01.
  pose proof (wf_inline _ _ (Hwf Tasks) _ _ Hst) as Hid. simpl in Hid.
  assert (Hg : possibly_update k (gen (st_tasks (db w))) = gen (st_tasks (db w))).
  { destruct k as [z|]; [|done]. apply possibly_update_id.
    eapply (wf_gen _ _ (Hwf Tasks)); eauto. }
  assert (Ht : toggled task = <["done" := Num (1 - d)]> task).
  { unfold toggled, get. rewrite Hdone. simpl. by destruct Hd01 as [-> | ->]. }
  intros w1. subst w1.
  rewrite (toggleTaskDone_unfold task k) by auto using next_fault_nil.
  rewrite Hg, Ht, Hd. simpl.
  set (w1 := set_db _ _).
  assert (Hd1 : device (renderTasks w1).2 = []) by by apply renderTasks_device.
  rewrite renderTasks_db. simpl.
  assert (Hback : toggled (<["done" := Num (1 - d)]> task) = task).
  { unfold toggled, get. rewrite lookup_insert_eq. simpl.
    rewrite insert_insert_eq. apply insert_id. rewrite Hdone.
    by destruct Hd01 as [-> | ->]. }
  exists (<["done" := Num (1 - d)]> task). repeat split.
  - by rewrite lookup_insert_eq.
  - by rewrite lookup_insert_eq.
  - intros p Hp. by rewrite lookup_insert_ne.
  - intros k' Hk'. by rewrite lookup_insert_ne.
  - rewrite (toggleTaskDone_unfold _ k); [|auto using next_fault_nil|].
    2:{ by rewrite lookup_insert_ne. }
    rewrite !renderTasks_db. simpl. rewrite ?renderTasks_db. simpl.
    rewrite Hback, insert_insert_eq, (insert_id _ _ _ Hst).
    destruct k as [z|]; simpl.
    + fold (possibly_update (KNum z) (gen (st_tasks (db w)))). rewrite Hg.
      rewrite store_eta. by destruct (db w).
    + rewrite store_eta. by destruct (db w).
  - rewrite (toggleTaskDone_unfold _ k); [|auto using next_fault_nil|].
    2:{ by rewrite lookup_insert_ne. }
    rewrite !renderTasks_db. simpl. rewrite ?renderTasks_db. simpl.
    by rewrite lookup_insert_eq, Hback.
Qed.

(** ** Dialog input *)

Lemma trimStart_blank s : all_whitespace s = true → trimStart s = [].
Proof.
  induction s as [|c s IH]; simpl; [done|].
  intros [Hc Hs]%andb_prop. rewrite Hc. auto.
Qed.

Lemma trim_blank s : all_whitespace s = true → trim s = [].
Proof. intros H. unfold trim. by rewrite trimStart_blank. Qed.

Lemma all_whitespace_Forall s :
  all_whitespace s = true ↔ Forall (λ c, is_whitespace c = true) s.
Proof.
  induction s as [|c s IH]; simpl; [by split; [constructor|]|].
  rewrite andb_true_iff, IH, Forall_cons. done.
Qed.

Lemma trimStart_empty s : trimStart s = [] ↔ all_whitespace s = true.
Proof.
  induction s as [|c s IH]; simpl; [done|].
  destruct (is_whitespace c); simpl; [done|]. by split.
Qed.

Lemma all_whitespace_trimStart s : all_whitespace (trimStart s) = all_whitespace s.
Proof.
  induction s as [|c s IH]; simpl; [done|].
  destruct (is_whitespace c) eqn:Hc; simpl; [done|]. by rewrite Hc.
Qed.

Lemma all_whitespace_reverse s :
  all_whitespace (reverse s) = true ↔ all_whitespace s = true.
Proof. by rewrite !all_whitespace_Forall, Forall_reverse. Qed.

(** The texts [trim] empties are exactly the blank ones. *)
Lemma trim_empty s : trim s = [] ↔ all_whitespace s = true.
Proof.
  unfold trim, trimEnd.
  rewrite <- all_whitespace_trimStart, <- all_whitespace_reverse, <- trimStart_empty.
  split; [|by intros ->].
  intros H. apply (f_equal reverse) in H. by rewrite reverse_involutive in H.
Qed.

(** The code units [trim] strips, one by one. *)
Lemma is_whitespace_table c :
  is_whitespace c = true ↔
  c ∈ [ 0x0009; 0x000A; 0x000B; 0x000C; 0x000D; 0x0020; 0x00A0; 0x1680;
        0x2000; 0x2001; 0x2002; 0x2003; 0x2004; 0x2005; 0x2006; 0x2007;
        0x2008; 0x2009; 0x200A; 0x2028; 0x2029; 0x202F; 0x205F; 0x3000;
        0xFEFF ]%N.
Proof.
  unfold is_whitespace.
  rewrite !orb_true_iff, !andb_true_iff, !N.leb_le, !N.eqb_eq.
  rewrite !elem_of_cons, elem_of_nil. unfold code_unit in *. lia.
Qed.

Example trim_sample :
  trim ([0x3000; 0xFEFF]%N ++ lit " memo " ++ [0x2028; 0x00A0]%N)%list = lit "memo".
Proof. reflexivity. Qed.

(** C10: when the add dialog is cancelled, or confirmed with a text that is
    empty or all whitespace (any of the code units [trim] strips, the
    ideographic space and the other wide ones included), add-memo and add-task
    return before [idbAdd]: no wrapper call is made and the database is
    untouched. *)
Theorem add_blank_no_insert (w : world) (answer : option utf16)
    (rest : list (option utf16)) :
  dialog w = answer :: rest →
  (answer = None ∨ ∃ text, answer = Some text ∧ all_whitespace text = true) →
  addMemo w = (Resolved (), set_dialog rest w) ∧
  addTask w = (Resolved (), set_dialog rest w) ∧
  calls (addMemo w).2 = calls w ∧ db (addMemo w).2 = db w ∧
  calls (addTask w).2 = calls w ∧ db (addTask w).2 = db w.
Proof.
  intros Hdlg Hans.
  assert (Hp : ∃ v, promptModal (Str "") w = (Resolved v, set_dialog rest w) ∧
                    truthy v = false).
  { unfold promptModal. rewrite Hdlg.
    destruct Hans as [-> | (text & -> & Hblank)].
    - by exists Null.
    - exists (Str (trim text)). by rewrite trim_blank. }
  destruct Hp as (v & Hp & Hv).
  assert (addMemo w = (Resolved (), set_dialog rest w)) as Hm.
  { unfold addMemo. unfold mbind at 1. unfold async_bind. by rewrite Hp, Hv. }
  assert (addTask w = (Resolved (), set_dialog rest w)) as Ht.
  { unfold addTask. unfold mbind at 1. unfold async_bind. by rewrite Hp, Hv. }
  by rewrite Hm, Ht.
Qed.

Lemma add_blank_no_insert_witness :
  let blank : utf16 := [0x3000; 0x0020; 0x0009; 0xFEFF; 0x2028; 0x00A0]%N in
  let w := World upgraded (Str "2024-01-01") Undefined Undefined []
                 "2024-01-01" "09:00" [] [Some blank] [] in
  addMemo w = (Resolved (), set_dialog [] w) ∧
  addTask w = (Resolved (), set_dialog [] w) ∧
  calls (addMemo w).2 = calls w ∧ db (addMemo w).2 = db w ∧
  calls (addTask w).2 = calls w ∧ db (addTask w).2 = db w.
Proof.
  intros blank w. apply (add_blank_no_insert w (Some blank) []); [reflexivity|].
  right. exists blank. split; reflexivity.
Defined.

(** C6: an edit confirmed with a text that trims to the empty string is
    turned down by [editMemo] itself: it shows the warning and returns, no
    [put] (indeed no wrapper call at all) is made, and every stored memo is
    exactly as before. *)
Theorem editMemo_empty_no_put (w : world) (memo : obj) (text : utf16)
    (rest : list (option utf16)) :
  dialog w = Some text :: rest →
  trim text = [] →
  editMemo memo w = (Resolved (), add_toast EmptyNotSaved (set_dialog rest w)) ∧
  calls (editMemo memo w).2 = calls w ∧
  db (editMemo memo w).2 = db w ∧
  ∀ k, recs (st_memos (db (editMemo memo w).2)) !! k = recs (st_memos (db w)) !! k.
Proof.
  intros Hdlg Htrim.
  assert (editMemo memo w = (Resolved (), add_toast EmptyNotSaved (set_dialog rest w))) as He.
  { unfold editMemo, promptModal. unfold mbind at 1. unfold async_bind.
    by rewrite Hdlg, Htrim. }
  by rewrite He.
Qed.

Lemma editMemo_empty_no_put_witness :
  let memo : obj := {[ "memo_id" := Num 1; "memo_title" := Str "x";
                       "jour_title" := Str "2024-01-01" ]} in
  let w := World (Database new_store (Store 2 {[ KNum 1 := memo ]}) new_store)
                 (Str "2024-01-01") Undefined Undefined []
                 "2024-01-01" "09:00" [] [Some []] [] in
  editMemo memo w = (Resolved (), add_toast EmptyNotSaved (set_dialog [] w)) ∧
  calls (editMemo memo w).2 = calls w ∧
  db (editMemo memo w).2 = db w ∧
  ∀ k, recs (st_memos (db (editMemo memo w).2)) !! k = recs (st_memos (db w)) !! k.
Proof.
  intros memo w. apply (editMemo_empty_no_put w memo [] []); reflexivity.
Defined.

(** ** Fetching *)

Lemma filter_snd_fmap {A B} (P : B → Prop) `{∀ x, Decision (P x)} (l : list (A * B)) :
  filter P l.*2 = (filter (λ kr, P kr.2) l).*2.
Proof.
  induction l as [|[k r] l IH]; [done|].
  rewrite fmap_cons, !filter_cons. simpl.
  case_decide; by rewrite ?fmap_cons, IH.
Qed.

Lemma records_Permutation st : records st ≡ₚ (map_to_list (recs st)).*2.
Proof. unfold records. by rewrite merge_sort_Permutation. Qed.

Lemma elem_of_records st r : r ∈ records st ↔ ∃ k, recs st !! k = Some r.
Proof.
  rewrite records_Permutation, list_elem_of_fmap. split.
  - intros ([k r'] & -> & Hin). exists k. by apply elem_of_map_to_list.
  - intros [k Hk]. exists (k, r). split; [done|]. by apply elem_of_map_to_list.
Qed.

Lemma index_records_Permutation p k st :
  index_records p k st ≡ₚ
    (filter (λ kr, kr.2 !! p = Some (of_key k)) (map_to_list (recs st))).*2.
Proof.
  unfold index_records. rewrite records_Permutation.
  rewrite (filter_snd_fmap (λ r, index_key r p = Some k)).
  f_equiv. induction (map_to_list (recs st)) as [|[k' r] l IH]; [done|].
  rewrite !filter_cons. simpl.
  pose proof (index_key_Some r p k).
  repeat case_decide; try tauto; by rewrite IH.
Qed.

Lemma elem_of_index_records p k st r :
  r ∈ index_records p k st ↔ ∃ k', recs st !! k' = Some r ∧ r !! p = Some (of_key k).
Proof.
  unfold index_records. rewrite list_elem_of_filter, elem_of_records, index_key_Some.
  split; [intros [? [k' ?]]|intros [k' [? ?]]]; eauto.
Qed.

(** C8: a fetch on the [jour_title] index of any store, for any key value
    [T], resolves (when the device does not fail the request) to exactly the
    stored records whose [jour_title] is [T]: each such record once per key it
    is stored under, nothing else, and the empty list when there is none.
    The fetch writes nothing. *)
Theorem idbIndexGetAll_exact (w : world) (s : store_name) (T : key) :
  next_fault w = None →
  ∃ l,
    (idbIndexGetAll s "jour_title" (of_key T) w).1 = Resolved l ∧
    db (idbIndexGetAll s "jour_title" (of_key T) w).2 = db w ∧
    l ≡ₚ (filter (λ kr, kr.2 !! "jour_title" = Some (of_key T))
                 (map_to_list (recs (objectStore (db w) s)))).*2 ∧
    (∀ r, r ∈ l ↔ ∃ k, recs (objectStore (db w) s) !! k = Some r ∧
                        r !! "jour_title" = Some (of_key T)) ∧
    ((∀ k r, recs (objectStore (db w) s) !! k = Some r →
             r !! "jour_title" ≠ Some (of_key T)) → l = []).
Proof.
  intros Hf. exists (index_records "jour_title" T (objectStore (db w) s)).
  split; [|split; [apply idbIndexGetAll_db|split; [|split]]].
  - unfold idbIndexGetAll. async_simpl. rewrite to_key_of_key.
    assert (find_index s "jour_title" = Some (Index "jour_title" "jour_title"
              (bool_decide (s = Jour)))) as -> by by destruct s.
    unfold request. change (next_fault (add_call _ w)) with (next_fault w).
    by rewrite Hf.
  - apply index_records_Permutation.
  - apply elem_of_index_records.
  - intros Hnone. apply elem_of_nil_inv. intros r.
    rewrite elem_of_index_records. intros (k & Hk & Hr). by eapply Hnone.
Qed.

Lemma idbIndexGetAll_exact_witness :
  ∃ l,
    (idbIndexGetAll Memos "jour_title" (Str "2024-01-01") sample_world).1 = Resolved l ∧
    db (idbIndexGetAll Memos "jour_title" (Str "2024-01-01") sample_world).2
      = db sample_world ∧
    l ≡ₚ (filter (λ kr, kr.2 !! "jour_title" = Some (Str "2024-01-01"))
                 (map_to_list (recs (objectStore (db sample_world) Memos)))).*2 ∧
    (∀ r, r ∈ l ↔ ∃ k, recs (objectStore (db sample_world) Memos) !! k = Some r ∧
                        r !! "jour_title" = Some (Str "2024-01-01")) ∧
    ((∀ k r, recs (objectStore (db sample_world) Memos) !! k = Some r →
             r !! "jour_title" ≠ Some (Str "2024-01-01")) → l = []).
Proof.
  apply (idbIndexGetAll_exact sample_world Memos (KStr "2024-01-01")).
  reflexivity.
Defined.

Example idbIndexGetAll_sample :
  (idbIndexGetAll Memos "jour_title" (Str "2024-01-01") sample_world).1
    = Resolved [sample_memo] ∧
  (idbIndexGetAll Memos "jour_title" (Str "2024-01-02") sample_world).1
    = Resolved [].
Proof. split; by vm_compute. Qed.

(** ** Inserting *)

(** The one record a unique index files under a key. *)
Lemma index_records_unique s st ix k r kT :
  store_wf s st → ix ∈ indexes s → ix_unique ix = true →
  recs st !! k = Some r → index_key r (ix_path ix) = Some kT →
  index_records (ix_path ix) kT st = [r].
Proof.
  intros Hwf Hix Hu Hk HkT. apply Permutation_singleton_r.
  rewrite index_records_Permutation.
  change [r] with ([(k, r)].*2). f_equiv.
  apply NoDup_Permutation.
  - apply NoDup_filter, NoDup_map_to_list.
  - apply NoDup_singleton.
  - intros [k' r']. rewrite list_elem_of_filter, elem_of_map_to_list,
      list_elem_of_singleton. simpl. split.
    + intros [Hr' Hk']. apply index_key_Some in Hr'.
      assert (k' = k) as ->; [|congruence].
      eapply (wf_unique _ _ Hwf ix); eauto. congruence.
    + intros [= -> ->]. split; [|done]. by apply index_key_Some.
Qed.

(** An insert that meets a stored record with the same key in a unique index
    is refused, whatever key the new value carries or would be given. *)
Lemma store_record_clash s ek v st ix k r kT :
  ix ∈ indexes s → ix_unique ix = true → ix_path ix ≠ keyPath s →
  recs st !! k = Some r →
  index_key r (ix_path ix) = Some kT → index_key v (ix_path ix) = Some kT →
  store_record true s ek v st = inl ConstraintError.
Proof.
  intros Hix Hu Hp Hk Hr Hv. unfold store_record.
  assert (Hclash : ∀ k0 v0, recs st !! k0 = None →
            index_key v0 (ix_path ix) = Some kT → clashes s k0 v0 (recs st)).
  { intros k0 v0 Hk0 Hv0. eapply (clashes_intro _ _ _ _ ix k r); eauto; congruence. }
  destruct ek as [k0|].
  - simpl. case_bool_decide as Hex; [done|].
    rewrite bool_decide_eq_true_2; [done|].
    apply Hclash; [|done]. by apply eq_None_not_Some.
  - destruct (max_generated <? gen st); [done|].
    simpl. case_bool_decide as Hex; [done|].
    rewrite bool_decide_eq_true_2; [done|].
    apply Hclash; [by apply eq_None_not_Some|].
    apply index_key_Some. rewrite lookup_insert_ne by done. by apply index_key_Some.
Qed.

Lemma idbAdd_clash (w : world) (T : utf16) (k : key) (r v : obj) :
  next_fault w = None →
  recs (st_jour (db w)) !! k = Some r →
  r !! "jour_title" = Some (Str T) →
  v !! "jour_title" = Some (Str T) →
  extract_key v "jour_id" ≠ Invalid →
  idbAdd Jour v w =
    (Rejected ConstraintError, set_device (tail (device w)) (add_call (Add Jour v) w)).
Proof.
  intros Hf Hk Hr Hv Hvalid.
  assert (Hix : Index "jour_title" "jour_title" true ∈ indexes Jour)
    by (simpl; apply list_elem_of_singleton; done).
  assert (∃ ek, key_of_value Jour v = inr ek) as [ek Hek].
  { unfold key_of_value. simpl. destruct (extract_key v "jour_id"); eauto. done. }
  unfold idbAdd. rewrite Hek. async_simpl. unfold request.
  change (next_fault (add_call _ w)) with (next_fault w). rewrite Hf. simpl.
  rewrite (store_record_clash Jour ek v _ _ k r (KStr T) Hix); try done.
  all: by apply index_key_Some.
Qed.

(** C4: with a journal of title [T] stored, inserting another journal value
    of title [T] (not failed by the device, and acceptable to [add], i.e. its
    [jour_id] is missing or a key) is rejected with [ConstraintError], which
    is none of the other errors; the database is exactly as before, the first
    record is still stored unmodified under its key, and it is the one and
    only record found by title [T]. *)
Theorem idbAdd_duplicate_title (w : world) (T : utf16) (k : key) (r v : obj) :
  next_fault w = None →
  database_wf (db w) →
  recs (st_jour (db w)) !! k = Some r →
  r !! "jour_title" = Some (Str T) →
  v !! "jour_title" = Some (Str T) →
  extract_key v "jour_id" ≠ Invalid →
  (idbAdd Jour v w).1 = Rejected ConstraintError ∧
  (∀ f, ConstraintError ≠ DeviceFailure f) ∧
  ConstraintError ≠ DataError ∧ ConstraintError ≠ NotFoundError ∧
  db (idbAdd Jour v w).2 = db w ∧
  recs (st_jour (db (idbAdd Jour v w).2)) !! k = Some r ∧
  index_records "jour_title" (KStr T) (st_jour (db (idbAdd Jour v w).2)) = [r] ∧
  (∀ k' r', recs (st_jour (db (idbAdd Jour v w).2)) !! k' = Some r' →
            r' !! "jour_title" = Some (Str T) → k' = k ∧ r' = r).
Proof.
  intros Hf Hwf Hk Hr Hv Hvalid.
  assert (Hix : Index "jour_title" "jour_title" true ∈ indexes Jour)
    by (simpl; apply list_elem_of_singleton; done).
  pose proof (idbAdd_clash w T k r v Hf Hk Hr Hv Hvalid) as Hadd.
  rewrite Hadd. simpl. repeat split; try done.
  - apply (index_records_unique Jour _ (Index "jour_title" "jour_title" true) k);
      auto. by apply index_key_Some.
  - assert (k' = k) as ->; [|congruence].
    eapply (wf_unique _ _ (Hwf Jour) _ k' k r' r Hix); eauto.
    + exists (KStr T). by apply index_key_Some.
    + simpl. transitivity (Some (KStr T)); [|symmetry]; by apply index_key_Some.
  - assert (k' = k) as ->; [|congruence].
    eapply (wf_unique _ _ (Hwf Jour) _ k' k r' r Hix); eauto.
    + exists (KStr T). by apply index_key_Some.
    + simpl. transitivity (Some (KStr T)); [|symmetry]; by apply index_key_Some.
Qed.

(** An insert of a value without key either fails and writes nothing, or
    resolves to the generator's current number, stores the value under it
    with the key injected, and moves the generator one up. *)
Lemma idbAdd_generated s v w :
  extract_key v (keyPath s) = Absent →
  let st := objectStore (db w) s in
  (∃ e, (idbAdd s v w).1 = Rejected e ∧ db (idbAdd s v w).2 = db w) ∨
  (gen st ≤ max_generated ∧
   recs st !! KNum (gen st) = None ∧
   (idbAdd s v w).1 = Resolved (Num (gen st)) ∧
   db (idbAdd s v w).2 =
     with_store s (Store (gen st + 1)
                         (<[KNum (gen st) := <[keyPath s := Num (gen st)]> v]> (recs st)))
                (db w)).
Proof.
  intros Habs st. unfold idbAdd, key_of_value. rewrite Habs. async_simpl.
  unfold request. change (next_fault (add_call _ w)) with (next_fault w).
  destruct (next_fault w); [left; eauto|]. simpl. fold st.
  unfold store_record.
  destruct (max_generated <? gen st) eqn:Hmax; [left; eauto|].
  simpl. case_bool_decide as Hex; [left; eauto|].
  case_bool_decide; [left; eauto|].
  right. simpl. repeat split; try done; [lia|]. by apply eq_None_not_Some.
Qed.

Lemma request_next {A} s (op : store → error + A * store) w :
  next_fault w = None →
  request s op w =
    match op (objectStore (db w) s) with
    | inl e => (Rejected e, set_device (tail (device w)) w)
    | inr (a, st) =>
        (Resolved a,
         set_db (with_store s st (db w)) (set_device (tail (device w)) w))
    end.
Proof. intros Hf. unfold request. by rewrite Hf. Qed.

Lemma generated_key_free s st :
  store_wf s st → gen st ≤ max_generated → recs st !! KNum (gen st) = None.
Proof.
  intros Hwf Hg. destruct (recs st !! KNum (gen st)) as [r|] eqn:Hr; [|done].
  pose proof (wf_gen _ _ Hwf _ _ Hr). lia.
Qed.

Lemma idbAdd_fresh s v w :
  let st := objectStore (db w) s in
  next_fault w = None →
  extract_key v (keyPath s) = Absent →
  gen st ≤ max_generated →
  recs st !! KNum (gen st) = None →
  ¬ clashes s (KNum (gen st)) (<[keyPath s := Num (gen st)]> v) (recs st) →
  idbAdd s v w =
    (Resolved (Num (gen st)),
     set_db (with_store s
               (Store (gen st + 1)
                      (<[KNum (gen st) := <[keyPath s := Num (gen st)]> v]> (recs st)))
               (db w))
            (set_device (tail (device w)) (add_call (Add s v) w))).
Proof.
  intros st Hf Habs Hg Hfree Hc.
  unfold idbAdd, key_of_value. rewrite Habs. async_simpl.
  rewrite request_next by done. unfold store_record. simpl. fold st.
  assert ((max_generated <? gen st) = false) as -> by lia. simpl.
  rewrite bool_decide_eq_false_2 by (rewrite Hfree; by intros []).
  by rewrite bool_decide_eq_false_2.
Qed.

(** No index of a store reads the key path of the store. *)
Lemma index_path_not_keyPath s ix : ix ∈ indexes s → ix_path ix ≠ keyPath s.
Proof.
  destruct s; simpl; intros Hin;
    repeat (apply elem_of_cons in Hin as [->|Hin]; [done|]);
    by apply elem_of_nil in Hin.
Qed.

Lemma index_key_injected s ix v x :
  ix ∈ indexes s →
  index_key (<[keyPath s := x]> v) (ix_path ix) = index_key v (ix_path ix).
Proof.
  intros Hin. unfold index_key, extract_key.
  by rewrite lookup_insert_ne by (symmetry; by apply index_path_not_keyPath).
Qed.

Lemma collides_injected s v r x y :
  collides s (<[keyPath s := x]> v) (<[keyPath s := y]> r) ↔ collides s v r.
Proof.
  unfold collides. rewrite !Exists_exists.
  split; intros (ix & Hin & Hu & Hs & Heq); exists ix; (split; [done|]);
    pose proof (λ v x, index_key_injected s ix v x Hin) as Hk;
    rewrite ?Hk in *; done.
Qed.

Lemma collides_injected_l s v r x :
  collides s (<[keyPath s := x]> v) r ↔ collides s v r.
Proof.
  unfold collides. rewrite !Exists_exists.
  split; intros (ix & Hin & Hu & Hs & Heq); exists ix; (split; [done|]);
    pose proof (λ v x, index_key_injected s ix v x Hin) as Hk;
    rewrite ?Hk in *; done.
Qed.

Lemma collides_injected_r s v r y :
  collides s v (<[keyPath s := y]> r) ↔ collides s v r.
Proof.
  unfold collides. rewrite !Exists_exists.
  split; intros (ix & Hin & Hu & Hs & Heq); exists ix; (split; [done|]);
    pose proof (λ v x, index_key_injected s ix v x Hin) as Hk;
    rewrite ?Hk in *; done.
Qed.

Lemma clashes_collides s k v m :
  clashes s k v m → ∃ k' r, m !! k' = Some r ∧ collides s v r.
Proof.
  intros (ix & k' & r & Hin & Hu & Hl & _ & Hs & Heq)%clashes_elim.
  exists k', r. split; [done|]. apply Exists_exists. by exists ix.
Qed.

Lemma StronglySorted_seqZ m n : StronglySorted Z.lt (seqZ m n).
Proof.
  destruct (decide (n ≤ 0)) as [|Hn]; [rewrite seqZ_nil by done; constructor|].
  rewrite <- (Z2Nat.id n) by lia. generalize (Z.to_nat n) as i. clear. intros i.
  revert m. induction i as [|i IH]; intros m; [constructor|].
  rewrite seqZ_cons by lia. constructor.
  - replace (Z.pred (Z.of_nat (S i))) with (Z.of_nat i) by lia. apply IH.
  - apply Forall_seqZ. lia.
Qed.

(** Whatever the device does: the inserts that resolve are given the numbers
    of the generator one after the other, the generator ends right after the
    last of them, the numbers were free, and each value is then found under
    its number; the rest of the store is as it was. *)
Lemma add_each_generated s vs : ∀ w,
  Forall (λ v, extract_key v (keyPath s) = Absent) vs →
  let st := objectStore (db w) s in
  let st' := objectStore (db (add_each s vs w).2) s in
  ∃ m : nat,
    assigned (add_each s vs w).1 = Num <$> seqZ (gen st) (Z.of_nat m) ∧
    gen st' = gen st + Z.of_nat m ∧
    (∀ z, gen st ≤ z < gen st + Z.of_nat m → recs st !! KNum z = None) ∧
    (∀ z, z < gen st → recs st' !! KNum z = recs st !! KNum z) ∧
    Forall2 (λ v o, ∀ k, o = Resolved k →
               ∃ z, k = Num z ∧ gen st ≤ z < gen st + Z.of_nat m ∧
                    recs st' !! KNum z = Some (<[keyPath s := Num z]> v))
            vs (add_each s vs w).1.
Proof.
  induction vs as [|v vs IH]; intros w Hall.
  - exists 0%nat. simpl. repeat split; [lia|lia|constructor].
  - apply Forall_cons in Hall as [Hv Hall]. simpl.
    pose proof (idbAdd_generated s v w Hv) as Hstep.
    destruct (idbAdd s v w) as [o w1] eqn:Hrun. simpl in Hstep.
    destruct (IH w1 Hall) as (m & Hzs & Hgen & Hfresh & Hframe & Hrec).
    destruct (add_each s vs w1) as [os w2]. simpl in *.
    destruct Hstep as [(e & -> & Hdb) | (Hmax & Hfree & -> & Hdb)].
    + rewrite Hdb in *. exists m. repeat split; try done.
      constructor; [done|exact Hrec].
    + rewrite Hdb, objectStore_with_store in *. simpl in *.
      set (g := gen (objectStore (db w) s)) in *.
      exists (S m). unfold assigned in *. simpl. repeat split.
      * rewrite seqZ_cons by lia. rewrite Hzs.
        by replace (Z.pred (Z.of_nat (S m))) with (Z.of_nat m) by lia.
      * lia.
      * intros z Hz. destruct (decide (z = g)) as [->|Hne]; [done|].
        rewrite <- (Hfresh z) by lia. rewrite lookup_insert_ne; [done|congruence].
      * intros z Hz. rewrite Hframe by lia. rewrite lookup_insert_ne; [done|].
        intros [=]. lia.
      * constructor.
        -- intros k [= <-]. exists g. split; [done|]. split; [lia|].
           rewrite Hframe by lia. apply lookup_insert_eq.
        -- eapply Forall2_impl; [exact Hrec|]. simpl.
           intros v' o' Hk k Ho. destruct (Hk k Ho) as (z & -> & Hz & Hl).
           exists z. split; [done|]. split; [lia|done].
Qed.

Lemma next_fault_willing n w :
  Forall (λ f, f = None) (take (S n) (device w)) →
  next_fault w = None ∧ Forall (λ f, f = None) (take n (tail (device w))).
Proof.
  unfold next_fault. destruct (device w) as [|[f|] l]; simpl.
  - by rewrite take_nil.
  - by intros [? _]%Forall_cons.
  - by intros [_ ?]%Forall_cons.
Qed.

(** With room in the generator, a device that lets the requests through and
    no unique index in the way, every insert is given a key. *)
Lemma add_each_progress s vs : ∀ w,
  Forall (λ v, extract_key v (keyPath s) = Absent) vs →
  let st := objectStore (db w) s in
  ahead st →
  gen st + Z.of_nat (List.length vs) ≤ max_generated + 1 →
  Forall (λ f, f = None) (take (List.length vs) (device w)) →
  (∀ v k r, v ∈ vs → recs st !! k = Some r → ¬ collides s v r) →
  (∀ i j vi vj, (i < j)%nat → vs !! i = Some vi → vs !! j = Some vj →
                ¬ collides s vj vi) →
  (add_each s vs w).1 =
    (λ z, Resolved (Num z)) <$> seqZ (gen st) (Z.of_nat (List.length vs)).
Proof.
  induction vs as [|v vs IH]; intros w Hall st Hahead Hroom Hdev Hold Hnew; [done|].
  apply Forall_cons in Hall as [Hv Hall].
  cbn [List.length] in Hroom, Hdev.
  apply next_fault_willing in Hdev as [Hf Hdev].
  assert (Hg : gen st ≤ max_generated) by lia.
  assert (Hfree : recs st !! KNum (gen st) = None).
  { destruct (recs st !! KNum (gen st)) as [r|] eqn:Hr; [|done].
    pose proof (Hahead _ _ Hr). lia. }
  assert (Hc : ¬ clashes s (KNum (gen st)) (<[keyPath s := Num (gen st)]> v) (recs st)).
  { intros (k' & r & Hl & Hcol)%clashes_collides.
    apply collides_injected_l in Hcol. apply (Hold v k' r); [left|done..]. }
  pose proof (idbAdd_fresh s v w Hf Hv Hg Hfree Hc) as Hrun. fold st in Hrun.
  cbn [add_each]. rewrite Hrun.
  match goal with |- context [add_each s vs ?w0] => set (w1 := w0) end.
  assert (Hst1 : objectStore (db w1) s =
                 Store (gen st + 1)
                   (<[KNum (gen st) := <[keyPath s := Num (gen st)]> v]> (recs st))).
  { subst w1. simpl. by rewrite objectStore_with_store. }
  specialize (IH w1 Hall). cbn zeta in IH. rewrite Hst1 in IH. simpl in IH.
  destruct (add_each s vs w1) as [os w2] eqn:Hrest. simpl in IH. simpl.
  rewrite seqZ_cons by lia. rewrite fmap_cons. f_equal.
  replace (Z.pred (Z.of_nat (S (List.length vs)))) with (Z.of_nat (List.length vs)) by lia.
  apply IH.
  - unfold ahead. cbn [gen recs]. intros z r.
    destruct (decide (z = gen st)) as [->|Hne].
    + intros _. lia.
    + rewrite lookup_insert_ne by congruence. intros Hr.
      pose proof (Hahead _ _ Hr). lia.
  - lia.
  - exact Hdev.
  - intros v' k r Hin Hl. destruct (decide (k = KNum (gen st))) as [->|Hne].
    + rewrite lookup_insert_eq in Hl. injection Hl as <-.
      intros Hcol%collides_injected_r.
      apply list_elem_of_lookup in Hin as [j Hj].
      by apply (Hnew 0%nat (S j) v v'); [lia|..].
    + rewrite lookup_insert_ne in Hl by done. apply (Hold v' k r); [by right|done].
  - intros i j vi vj Hij Hi Hj. by apply (Hnew (S i) (S j) vi vj); [lia|..].
Qed.


Lemma singleton_store_wf s g z r :
  r !! keyPath s = Some (Num z) → Z.min z max_generated < g →
  store_wf s (Store g {[ KNum z := r ]}).
Proof.
  intros Hr Hz. split; simpl.
  - by intros k r' [<- <-]%lookup_singleton_Some.
  - by intros z' r' [[= <-] <-]%lookup_singleton_Some.
  - by intros ix k1 k2 r1 r2 _ _ [<- _]%lookup_singleton_Some
      [<- _]%lookup_singleton_Some.
Qed.

Lemma sample_db_wf : database_wf sample_db.
Proof. intros []; by apply singleton_store_wf. Qed.

(** C7: for any sequence of inserts of values without key into one store,
    from any consistent state of it and whatever the device does, the inserts
    that resolve are handed the numbers of the key generator one after the
    other: the keys strictly increase in insertion order, are pairwise
    distinct, were not in the store before, start at the generator's number
    and leave the generator right after the last of them, and each value is
    then stored under its key.  When the generator has room (its numbers end
    at 2 ^ 53), the device lets the requests through and no unique index
    stands in the way, every insert of the sequence is given a key. *)
Theorem generated_keys_increase (s : store_name) (vs : list obj) (w : world) :
  Forall (λ v, extract_key v (keyPath s) = Absent) vs →
  store_wf s (objectStore (db w) s) →
  let st := objectStore (db w) s in
  let os := (add_each s vs w).1 in
  let st' := objectStore (db (add_each s vs w).2) s in
  ∃ zs,
    assigned os = Num <$> zs ∧
    StronglySorted Z.lt zs ∧
    NoDup zs ∧
    Forall (λ z, recs st !! KNum z = None) zs ∧
    zs = seqZ (gen st) (Z.of_nat (List.length zs)) ∧
    gen st' = gen st + Z.of_nat (List.length zs) ∧
    Forall2 (λ v o, ∀ k, o = Resolved k →
               ∃ z, k = Num z ∧ z ∈ zs ∧
                    recs st' !! KNum z = Some (<[keyPath s := Num z]> v))
            vs os ∧
    (gen st + Z.of_nat (List.length vs) ≤ 2 ^ 53 + 1 →
     Forall (λ f, f = None) (take (List.length vs) (device w)) →
     (∀ v k r, v ∈ vs → recs st !! k = Some r → ¬ collides s v r) →
     (∀ i j vi vj, (i < j)%nat → vs !! i = Some vi → vs !! j = Some vj →
                   ¬ collides s vj vi) →
     os = (λ z, Resolved (Num z)) <$> seqZ (gen st) (Z.of_nat (List.length vs))).
Proof.
  intros Hall Hwf st os st'. subst os st'.
  destruct (add_each_generated s vs w Hall) as (m & Hzs & Hgen & Hfresh & _ & Hrec).
  fold st in Hzs, Hgen, Hfresh, Hrec.
  assert (Hlen : List.length (seqZ (gen st) (Z.of_nat m)) = m)
    by (rewrite length_seqZ; lia).
  exists (seqZ (gen st) (Z.of_nat m)). rewrite Hlen.
  split; [done|]. split; [apply StronglySorted_seqZ|]. split; [apply NoDup_seqZ|].
  split; [by apply Forall_seqZ|]. split; [done|]. split; [done|]. split.
  - eapply Forall2_impl; [exact Hrec|]. simpl.
    intros v o Hk k Ho. destruct (Hk k Ho) as (z & -> & Hz & Hl).
    exists z. split; [done|]. split; [by apply elem_of_seqZ|done].
  - intros Hroom Hdev Hold Hnew.
    apply add_each_progress; try done. exact (wf_gen _ _ Hwf).
Qed.

Lemma generated_keys_increase_witness :
  let vs : list obj := [ {[ "jour_title" := Str "2024-01-02" ]};
                         {[ "jour_title" := Str "2024-01-03" ]};
                         {[ "created_at" := Str "10:00" ]} ] in
  (add_each Jour vs sample_world).1
    = [Resolved (Num 2); Resolved (Num 3); Resolved (Num 4)] ∧
  gen (st_jour (db (add_each Jour vs sample_world).2)) = 5.
Proof.
  intros vs.
  destruct (generated_keys_increase Jour vs sample_world) as
    (zs & Hzs & _ & _ & _ & _ & Hgen & _ & Hall).
  - repeat constructor.
  - apply sample_db_wf.
  - assert ((add_each Jour vs sample_world).1
            = [Resolved (Num 2); Resolved (Num 3); Resolved (Num 4)]) as Hos.
    { apply Hall.
      - by vm_compute.
      - by vm_compute.
      - intros v k r Hin Hl.
        change (({[ KNum 1 := sample_jour ]} : gmap key obj) !! k = Some r) in Hl.
        apply lookup_singleton_Some in Hl as [<- <-].
        revert v Hin. apply Forall_forall.
        repeat first
          [ apply Forall_nil_2
          | apply Forall_cons_2;
            [by apply (bool_decide_eq_false_1 (collides Jour _ sample_jour))|] ].
      - intros i j vi vj Hij Hi Hj.
        apply (bool_decide_eq_false_1 (collides Jour vj vi)).
        pose proof (lookup_lt_Some _ _ _ Hj) as Hlt. simpl in Hlt.
        destruct i as [|[|[|i]]], j as [|[|[|j]]]; try lia;
          injection Hi as <-; injection Hj as <-; vm_compute; reflexivity. }
    split; [exact Hos|].
    assert (List.length zs = 3%nat) as Hlen.
    { rewrite Hos in Hzs. apply (f_equal List.length) in Hzs.
      by rewrite length_fmap in Hzs. }
    rewrite Hlen in Hgen. exact Hgen.
Defined.

Example generated_keys_sample :
  assigned (add_each Jour [ {[ "jour_title" := Str "2024-01-02" ]};
                            {[ "jour_title" := Str "2024-01-01" ]};
                            {[ "jour_title" := Str "2024-01-03" ]} ]
                     sample_world).1 = [Num 2; Num 3].
Proof. by vm_compute. Qed.

(** ** Ensuring today's journal *)

Lemma ensureTodayJour_unfold w :
  ensureTodayJour w =
    match idbAdd Jour (today_record w) (ensure_prelude w) with
    | (Resolved _, w1) => renderAll (add_toast JourCreated w1)
    | (Rejected _, w1) => renderAll (add_toast JourExists w1)
    | (Pending, w1) => (Pending, w1)
    end.
Proof.
  unfold ensureTodayJour, try_catch. async_simpl.
  fold (ensure_prelude w). fold (today_record w).
  by destruct (idbAdd Jour (today_record w) (ensure_prelude w)) as [[] ?].
Qed.

Lemma idbAdd_rejected s v w e w1 :
  idbAdd s v w = (Rejected e, w1) →
  db w1 = db w ∧ currentJourTitle w1 = currentJourTitle w.
Proof.
  unfold idbAdd, request. async_simpl.
  repeat case_match; intros; simplify_eq; done.
Qed.

Lemma idbAdd_frame s v w :
  currentJourTitle (idbAdd s v w).2 = currentJourTitle w ∧
  calls (idbAdd s v w).2 = (calls w ++ [Add s v])%list ∧
  (device w = [] → device (idbAdd s v w).2 = []).
Proof.
  unfold idbAdd, request. async_simpl.
  repeat case_match; simplify_eq; simpl; repeat split; try done; by intros ->.
Qed.

Lemma idbAdd_never_pending s v w : (idbAdd s v w).1 ≠ Pending.
Proof.
  unfold idbAdd, request. async_simpl.
  repeat case_match; simplify_eq; done.
Qed.

Lemma renderAll_frame w :
  currentJourTitle (renderAll w).2 = currentJourTitle w ∧
  calls (renderAll w).2 =
    (calls w ++ [GetAll Jour;
                 IndexGetAll Memos "jour_title" (currentJourTitle w);
                 IndexGetAll Tasks "jour_title" (currentJourTitle w)])%list.
Proof.
  unfold renderAll, renderJour, renderMemos, renderTasks, idbGetAll,
    idbIndexGetAll, request.
  async_simpl.
  repeat case_match; simplify_eq; simpl; by rewrite <- ?app_assoc.
Qed.

Lemma renderAll_sound w k :
  device w = [] → to_key (currentJourTitle w) = Some k →
  renderAll w =
    (Resolved (),
     add_calls [GetAll Jour;
                IndexGetAll Memos "jour_title" (currentJourTitle w);
                IndexGetAll Tasks "jour_title" (currentJourTitle w)]
               (set_heroTitle (currentJourTitle w) w)).
Proof.
  intros Hd Hk.
  unfold renderAll, renderJour, renderMemos, renderTasks. async_simpl.
  rewrite idbGetAll_sound by done. simpl.
  rewrite (idbIndexGetAll_sound Memos _ _ (Index "jour_title" "jour_title" false) k)
    by done. simpl.
  rewrite (idbIndexGetAll_sound Tasks _ _ (Index "jour_title" "jour_title" false) k)
    by done. simpl.
  unfold add_calls, add_call, set_heroTitle. simpl. by rewrite <- !app_assoc.
Qed.

(** C1, as the code has it: [ensureTodayJour] makes today's title the active
    journal whatever happens to the insert; and when the insert fails, for
    any reason at all (a title collision or any other storage failure), the
    failure is caught: nothing is written, the call goes on to re-render and
    settles as the re-render does, resolving when the device has no further
    fault in store. *)
Theorem ensureTodayJour_catches_every_failure (w : world) :
  currentJourTitle (ensureTodayJour w).2 = Str (today w) ∧
  ∀ e w1,
    idbAdd Jour (today_record w) (ensure_prelude w) = (Rejected e, w1) →
    ensureTodayJour w = renderAll (add_toast JourExists w1) ∧
    db (ensureTodayJour w).2 = db w ∧
    (device w1 = [] → (ensureTodayJour w).1 = Resolved ()).
Proof.
  split.
  - rewrite ensureTodayJour_unfold.
    pose proof (idbAdd_frame Jour (today_record w) (ensure_prelude w)) as (Hc & _).
    destruct (idbAdd Jour (today_record w) (ensure_prelude w)) as [[] w1];
      simpl in *; [| |done].
    all: by rewrite (proj1 (renderAll_frame _)).
  - intros e w1 Hadd. rewrite ensureTodayJour_unfold, Hadd.
    pose proof (idbAdd_rejected _ _ _ _ _ Hadd) as [Hdb Hc]. simpl in *.
    repeat split.
    + by rewrite renderAll_db.
    + intros Hd. rewrite (renderAll_sound _ (KStr (today w))); [done|done|].
      simpl. by rewrite Hc.
Qed.

Lemma ensureTodayJour_catches_every_failure_witness :
  currentJourTitle (ensureTodayJour sample_world).2 = Str "2024-01-01" ∧
  (ensureTodayJour sample_world).1 = Resolved () ∧
  db (ensureTodayJour sample_world).2 = db sample_world.
Proof.
  destruct (ensureTodayJour_catches_every_failure sample_world) as [Hc Hfail].
  destruct (Hfail ConstraintError
              (add_call (Add Jour (today_record sample_world))
                        (ensure_prelude sample_world)))
    as (_ & Hdb & Hres); [by vm_compute|].
  split; [exact Hc|]. split; [by apply Hres|exact Hdb].
Defined.

(** The claim's "any other failure propagates" fails: here the device fails
    the insert with UnknownError, no journal collides, and the call still
    resolves, showing the same toast as for an existing journal. *)
Lemma ensureTodayJour_swallows_device_failure :
  let w := World upgraded (Str "2024-01-01") Undefined Undefined []
                 "2024-01-01" "10:00" [Some UnknownError] [] [] in
  (idbAdd Jour (today_record w) (ensure_prelude w)).1
    = Rejected (DeviceFailure UnknownError) ∧
  DeviceFailure UnknownError ≠ ConstraintError ∧
  (ensureTodayJour w).1 = Resolved () ∧
  toasts (ensureTodayJour w).2 = [JourExists] ∧
  recs (st_jour (db (ensureTodayJour w).2)) = ∅.
Proof. by vm_compute. Qed.

(** ** Deleting a journal with its memos and tasks *)

Lemma lookup_remove_keys ks : ∀ m k,
  remove_keys ks m !! k = if decide (k ∈ ks) then None else m !! k.
Proof.
  induction ks as [|k0 ks IH]; intros m k; simpl.
  - destruct (decide (k ∈ [])) as [H%elem_of_nil|]; done.
  - rewrite IH.
    destruct (decide (k ∈ ks)) as [Hks|Hks];
      destruct (decide (k ∈ k0 :: ks)) as [Hc|Hc];
      rewrite elem_of_cons in Hc; try done.
    + destruct Hc; auto.
    + destruct Hc as [->|]; [|done]. apply lookup_delete_eq.
    + apply lookup_delete_ne. intros ->. auto.
Qed.

Lemma stored_key_at s st k r :
  store_wf s st → recs st !! k = Some r → key_at (keyPath s) r = Some k.
Proof.
  intros Hwf Hk. unfold key_at, get. rewrite (wf_inline _ _ Hwf _ _ Hk).
  apply to_key_of_key.
Qed.

Lemma remove_index_records s st T :
  store_wf s st →
  remove_keys (omap (key_at (keyPath s)) (index_records "jour_title" (KStr T) st))
              (recs st)
  = recs (without_journal T st).
Proof.
  intros Hwf. apply map_eq. intros k. apply option_eq. intros r.
  rewrite lookup_remove_keys. simpl. rewrite map_lookup_filter_Some. simpl.
  case_decide as Hin.
  - split; [done|]. intros [Hk Hne].
    apply list_elem_of_omap in Hin as (m & Hm & Hkey).
    apply elem_of_index_records in Hm as (k' & Hk' & Hmatch).
    rewrite (stored_key_at _ _ _ _ Hwf Hk') in Hkey. by simplify_eq.
  - split; [|by intros []]. intros Hk. split; [done|]. intros Hmatch.
    destruct Hin. apply list_elem_of_omap. exists r. split.
    + apply elem_of_index_records. eauto.
    + by eapply stored_key_at.
Qed.

Lemma add_calls_nil w : add_calls [] w = w.
Proof. destruct w. unfold add_calls. simpl. by rewrite app_nil_r. Qed.

Lemma for_of_idbDelete s p (l : list obj) : ∀ w,
  device w = [] →
  Forall (λ r, is_Some (key_at p r)) l →
  for_of l (λ r, idbDelete s (get r p)) w =
    (Resolved (),
     set_db (with_store s
               (Store (gen (objectStore (db w) s))
                      (remove_keys (omap (key_at p) l) (recs (objectStore (db w) s))))
               (db w))
            (add_calls ((λ r, Delete s (get r p)) <$> l) w)).
Proof.
  induction l as [|r l IH]; intros w Hd Hall.
  - simpl. unfold mret, async_ret.
    by rewrite store_eta, with_store_same, add_calls_nil, set_db_same.
  - apply Forall_cons in Hall as [[k Hk] Hall]. simpl.
    unfold mbind, async_bind. rewrite (idbDelete_sound _ _ k) by done.
    rewrite IH by done. simpl. rewrite Hk. simpl.
    rewrite objectStore_with_store, with_store_with_store. simpl.
    unfold set_db, add_calls, add_call. simpl. by rewrite <- app_assoc.
Qed.

Lemma strict_eq_Str (j : obj) T :
  strict_eq (get j "jour_title") (Str T) = true ↔ j !! "jour_title" = Some (Str T).
Proof.
  unfold get. destruct (j !! "jour_title") as [[]|]; simpl; try (split; by intros).
  rewrite bool_decide_eq_true. split; congruence.
Qed.

Lemma ensureTodayJour_calls w :
  calls (ensureTodayJour w).2 =
    (calls w ++ [Add Jour (today_record w); GetAll Jour;
                 IndexGetAll Memos "jour_title" (Str (today w));
                 IndexGetAll Tasks "jour_title" (Str (today w))])%list.
Proof.
  rewrite ensureTodayJour_unfold.
  pose proof (idbAdd_frame Jour (today_record w) (ensure_prelude w)) as (Hc & Hcalls & _).
  pose proof (idbAdd_never_pending Jour (today_record w) (ensure_prelude w)) as Hp.
  destruct (idbAdd Jour (today_record w) (ensure_prelude w)) as [[] w1];
    simpl in *; [| |done].
  all: rewrite (proj2 (renderAll_frame _)); simpl; rewrite Hc, Hcalls;
    by rewrite <- app_assoc.
Qed.

Lemma deleteJour_unfold jourTitle w :
  device w = [] →
  deleteJour jourTitle w =
    match List.find (λ j, strict_eq (get j "jour_title") jourTitle)
                    (records (st_jour (db w))) with
    | None => (Resolved (), add_call (GetAll Jour) w)
    | Some target =>
        (memos ← idbIndexGetAll Memos "jour_title" jourTitle;
         tasks ← idbIndexGetAll Tasks "jour_title" jourTitle;
         for_of memos (λ m, idbDelete Memos (get m "memo_id"));;
         for_of tasks (λ t, idbDelete Tasks (get t "id"));;
         idbDelete Jour (get target "jour_id");;
         toast JourDeleted;;
         ensureTodayJour) (add_call (GetAll Jour) w)
    end.
Proof.
  intros Hd. unfold deleteJour. unfold mbind at 1. unfold async_bind.
  rewrite idbGetAll_sound by done. simpl objectStore.
  by destruct (List.find _ _).
Qed.

Lemma index_records_keyed s st kT :
  store_wf s st →
  Forall (λ r, is_Some (key_at (keyPath s) r)) (index_records "jour_title" kT st).
Proof.
  intros Hst. apply Forall_forall. intros r (k & Hk & _)%elem_of_index_records.
  exists k. by eapply stored_key_at.
Qed.

Lemma cascade_run w T target kt :
  device w = [] →
  database_wf (db w) →
  get target "jour_id" = of_key kt →
  (memos ← idbIndexGetAll Memos "jour_title" (Str T);
   tasks ← idbIndexGetAll Tasks "jour_title" (Str T);
   for_of memos (λ m, idbDelete Memos (get m "memo_id"));;
   for_of tasks (λ t, idbDelete Tasks (get t "id"));;
   idbDelete Jour (get target "jour_id");;
   toast JourDeleted;;
   ensureTodayJour) (add_call (GetAll Jour) w)
  = ensureTodayJour (add_toast JourDeleted
      (set_db (Database (Store (gen (st_jour (db w)))
                               (delete kt (recs (st_jour (db w)))))
                        (without_journal T (st_memos (db w)))
                        (without_journal T (st_tasks (db w))))
              (add_calls (cascade_calls T
                            (index_records "jour_title" (KStr T) (st_memos (db w)))
                            (index_records "jour_title" (KStr T) (st_tasks (db w)))
                            target) w))).
Proof.
  intros Hd Hwf Hid.
  unfold mbind, async_bind.
  rewrite (idbIndexGetAll_sound Memos _ _ (Index "jour_title" "jour_title" false)
             (KStr T)) by done.
  rewrite (idbIndexGetAll_sound Tasks _ _ (Index "jour_title" "jour_title" false)
             (KStr T)) by done.
  cbn [ix_path db add_call objectStore].
  rewrite (for_of_idbDelete Memos "memo_id")
    by (done || apply (index_records_keyed Memos), Hwf).
  rewrite (for_of_idbDelete Tasks "id")
    by (done || apply (index_records_keyed Tasks), Hwf).
  rewrite (idbDelete_sound Jour _ kt) by (done || by rewrite Hid, to_key_of_key).
  cbn [objectStore db set_db add_calls add_call with_store st_jour st_memos
       st_tasks gen recs].
  pose proof (remove_index_records Memos _ T (Hwf Memos)) as Hm.
  pose proof (remove_index_records Tasks _ T (Hwf Tasks)) as Ht.
  cbn [keyPath objectStore] in Hm, Ht. rewrite Hm, Ht.
  unfold toast, effect. f_equal. destruct w as [d c p h ts td nw dev dlg cs].
  cbv [add_toast set_db set_device add_calls add_call cascade_calls db
       currentJourTitle todayPill heroTitle toasts today now device dialog calls].
  rewrite <- !app_assoc. by destruct d as [[] [] []].
Qed.

(** C2: on a consistent database and a device that does not fail,
    [deleteJour T] first fetches all journals and looks for the first one of
    title [T].  With none it returns at once: the fetch is its only call and
    nothing is deleted.  With one, it fetches the memos and the tasks of [T]
    by index, deletes each of those memos by its [memo_id], then each of those
    tasks by its [id], then the journal found by its [jour_id], in this
    order: after that no memo or task of [T] is left and the journal's key is
    free.  Then it shows the toast and hands over to [ensureTodayJour], which
    makes no delete call. *)
Theorem deleteJour_cascade (w : world) (T : utf16) :
  device w = [] →
  database_wf (db w) →
  let memos := index_records "jour_title" (KStr T) (st_memos (db w)) in
  let tasks := index_records "jour_title" (KStr T) (st_tasks (db w)) in
  match List.find (λ j, strict_eq (get j "jour_title") (Str T))
                  (records (st_jour (db w))) with
  | None =>
      (∀ k r, recs (st_jour (db w)) !! k = Some r → r !! "jour_title" ≠ Some (Str T)) ∧
      deleteJour (Str T) w = (Resolved (), add_call (GetAll Jour) w)
  | Some target =>
      ∃ kt,
        recs (st_jour (db w)) !! kt = Some target ∧
        target !! "jour_title" = Some (Str T) ∧
        get target "jour_id" = of_key kt ∧
        let w' :=
          set_db (Database (Store (gen (st_jour (db w)))
                                  (delete kt (recs (st_jour (db w)))))
                           (without_journal T (st_memos (db w)))
                           (without_journal T (st_tasks (db w))))
                 (add_calls (cascade_calls T memos tasks target) w) in
        deleteJour (Str T) w = ensureTodayJour (add_toast JourDeleted w') ∧
        calls (deleteJour (Str T) w).2 =
          (calls w ++ cascade_calls T memos tasks target
                   ++ [Add Jour (today_record w); GetAll Jour;
                       IndexGetAll Memos "jour_title" (Str (today w));
                       IndexGetAll Tasks "jour_title" (Str (today w))])%list
  end.
Proof.
  intros Hd Hwf memos tasks. rewrite deleteJour_unfold by done.
  destruct (List.find _ (records (st_jour (db w)))) as [target|] eqn:Hfind.
  - apply find_some in Hfind as [Hin Htitle].
    apply list_elem_of_In, elem_of_records in Hin as [kt Hkt].
    apply strict_eq_Str in Htitle.
    assert (Hid : get target "jour_id" = of_key kt).
    { pose proof (wf_inline _ _ (Hwf Jour) _ _ Hkt) as Hi. simpl in Hi.
      unfold get. by rewrite Hi. }
    exists kt. split; [done|]. split; [done|]. split; [done|].
    rewrite (cascade_run w T target kt) by done. fold memos tasks.
    split; [done|]. rewrite ensureTodayJour_calls.
    change (today_record (add_toast _ _)) with (today_record w).
    cbn [calls add_toast set_db add_calls today].
    by rewrite <- app_assoc.
  - split; [|done]. intros k r Hk Hr.
    assert (In r (records (st_jour (db w)))) as Hin.
    { apply list_elem_of_In, elem_of_records. eauto. }
    pose proof (find_none _ _ Hfind r Hin) as Hnone. simpl in Hnone.
    by rewrite (proj2 (strict_eq_Str r T) Hr) in Hnone.
Qed.

Lemma deleteJour_cascade_witness :
  calls (deleteJour (Str "2024-01-01") sample_world).2 =
    [ GetAll Jour;
      IndexGetAll Memos "jour_title" (Str "2024-01-01");
      IndexGetAll Tasks "jour_title" (Str "2024-01-01");
      Delete Memos (Num 1);
      Delete Tasks (Num 1);
      Delete Jour (Num 1);
      Add Jour {[ "jour_title" := Str "2024-01-01"; "created_at" := Str "10:00" ]};
      GetAll Jour;
      IndexGetAll Memos "jour_title" (Str "2024-01-01");
      IndexGetAll Tasks "jour_title" (Str "2024-01-01") ].
Proof.
  pose proof (deleteJour_cascade sample_world "2024-01-01" eq_refl sample_db_wf) as H.
  cbv zeta in H.
  assert (List.find (λ j, strict_eq (get j "jour_title") (Str "2024-01-01"))
                    (records (st_jour (db sample_world))) = Some sample_jour) as Hfind
    by (vm_compute; reflexivity).
  rewrite Hfind in H. destruct H as (kt & _ & _ & _ & _ & Hcalls).
  rewrite Hcalls. vm_compute. reflexivity.
Defined.

Lemma toggleTaskDone_restores_flag_witness :
  recs (st_tasks (db (toggleTaskDone sample_task sample_world).2)) !! KNum 1
    = Some (<["done" := Num 1]> sample_task).
Proof.
  destruct (toggleTaskDone_restores_flag sample_world (KNum 1) sample_task
              eq_refl sample_db_wf eq_refl) as [H _].
  exact H.
Defined.

Lemma toggleTaskDone_twice_witness :
  ∃ task1,
    recs (st_tasks (db (toggleTaskDone sample_task sample_world).2)) !! KNum 1
      = Some task1 ∧
    task1 !! "done" = Some (Num 1) ∧
    db (toggleTaskDone task1 (toggleTaskDone sample_task sample_world).2).2
      = db sample_world.
Proof.
  destruct (toggleTaskDone_twice sample_world (KNum 1) sample_task 0
              eq_refl sample_db_wf eq_refl eq_refl (or_introl eq_refl))
    as (task1 & H1 & H2 & _ & _ & H3 & _).
  exists task1. split; [exact H1|]. split; [exact H2|exact H3].
Defined.

Lemma idbAdd_duplicate_title_witness :
  let v : obj := {[ "jour_title" := Str "2024-01-01"; "created_at" := Str "10:00" ]} in
  (idbAdd Jour v sample_world).1 = Rejected ConstraintError ∧
  db (idbAdd Jour v sample_world).2 = db sample_world ∧
  index_records "jour_title" (KStr "2024-01-01")
                (st_jour (db (idbAdd Jour v sample_world).2)) = [sample_jour].
Proof.
  intros v.
  destruct (idbAdd_duplicate_title sample_world "2024-01-01" (KNum 1) sample_jour v
              eq_refl sample_db_wf eq_refl eq_refl eq_refl)
    as (H1 & _ & _ & _ & H2 & _ & H3 & _).
  - vm_compute. discriminate.
  - split; [exact H1|]. split; [exact H2|exact H3].
Defined.

(** ** The deletion scenario *)

(** With today's journal already stored and a device that does not fail,
    [ensureTodayJour] resolves and writes nothing. *)
Lemma ensureTodayJour_existing w k r :
  device w = [] →
  recs (st_jour (db w)) !! k = Some r →
  r !! "jour_title" = Some (Str (today w)) →
  (ensureTodayJour w).1 = Resolved () ∧ db (ensureTodayJour w).2 = db w.
Proof.
  intros Hd Hk Hr. rewrite ensureTodayJour_unfold.
  assert (Hadd : idbAdd Jour (today_record w) (ensure_prelude w) =
            (Rejected ConstraintError,
             add_call (Add Jour (today_record w)) (ensure_prelude w))).
  { rewrite (idbAdd_clash _ (today w) k r); try done.
    - f_equal. change (device (ensure_prelude w)) with (device w). rewrite Hd.
      simpl. destruct w; simpl in *; by subst.
    - by apply next_fault_nil. }
  rewrite Hadd.
  by rewrite (renderAll_sound _ (KStr (today w))).
Qed.

Example scenario_keys d t :
  db (scenario d t) =
    Database
      (Store 2 {[ KNum 1 := {[ "jour_id" := Num 1; "jour_title" := Str "2024-01-01" ]} ]})
      (Store 2 {[ KNum 1 := {[ "memo_id" := Num 1; "memo_title" := Str "x";
                              "jour_title" := Str "2024-01-01" ]} ]})
      (Store 2 {[ KNum 1 := {[ "id" := Num 1; "title" := Str "y"; "done" := Num 0;
                              "jour_title" := Str "2024-01-01" ]} ]}).
Proof. vm_compute. reflexivity. Qed.

(** C3, as the code has it: in the scenario, [deleteJour "2024-01-01"]
    resolves and leaves the memo and task stores empty, but not the journal
    store: the journal under key 1 is gone, and the [ensureTodayJour] that
    ends the cascade has already put today's journal there under the fresh
    key 2 (on 2024-01-01 itself that is a fresh record for the deleted
    title).  A subsequent [ensureTodayJour] resolves and writes nothing. *)
Theorem scenario_after_cascade (d t : utf16) :
  let after := deleteJour (Str "2024-01-01") (scenario d t) in
  after.1 = Resolved () ∧
  recs (st_memos (db after.2)) = ∅ ∧
  recs (st_tasks (db after.2)) = ∅ ∧
  recs (st_jour (db after.2)) =
    {[ KNum 2 := {[ "jour_id" := Num 2; "jour_title" := Str d;
                    "created_at" := Str t ]} ]} ∧
  recs (st_jour (db after.2)) !! KNum 1 = None ∧
  currentJourTitle after.2 = Str d ∧
  (ensureTodayJour after.2).1 = Resolved () ∧
  db (ensureTodayJour after.2).2 = db after.2.
Proof.
  intros after.
  assert (Hj : recs (st_jour (db after.2)) =
    {[ KNum 2 := {[ "jour_id" := Num 2; "jour_title" := Str d;
                    "created_at" := Str t ]} ]}) by (vm_compute; reflexivity).
  split; [by vm_compute|]. split; [by vm_compute|]. split; [by vm_compute|].
  split; [exact Hj|]. split; [by rewrite Hj|]. split; [by vm_compute|].
  apply (ensureTodayJour_existing after.2 (KNum 2)
           {[ "jour_id" := Num 2; "jour_title" := Str d; "created_at" := Str t ]}).
  - by vm_compute.
  - by rewrite Hj.
  - by vm_compute.
Qed.

(** The claim's expectations fail on 2024-01-01: after the cascade the
    journal store is not empty (it already holds the fresh journal, key 2),
    and the subsequent [ensureTodayJour] creates no record. *)
Lemma scenario_journal_store_not_empty :
  let after := deleteJour (Str "2024-01-01") (scenario "2024-01-01" "10:00") in
  after.1 = Resolved () ∧
  recs (st_jour (db after.2)) ≠ ∅ ∧
  is_Some (recs (st_jour (db after.2)) !! KNum 2) ∧
  (ensureTodayJour after.2).1 = Resolved () ∧
  db (ensureTodayJour after.2).2 = db after.2.
Proof.
  intros after. split; [by vm_compute|]. split; [|split; [|split]].
  - intros Habs. assert (recs (st_jour (db after.2)) !! KNum 2 = None) as Hn
      by by rewrite Habs.
    vm_compute in Hn. discriminate.
  - vm_compute. eauto.
  - by vm_compute.
  - vm_compute. reflexivity.
Qed.

(** ** The invariant holds along every run *)

Lemma preserves_wf_ret {A} (a : A) : preserves_wf (mret a).
Proof. by intros w. Qed.

Lemma preserves_wf_bind {A B} (m : async A) (f : A → async B) :
  preserves_wf m → (∀ a, preserves_wf (f a)) → preserves_wf (m ≫= f).
Proof.
  intros Hm Hf w Hw. unfold mbind, async_bind.
  specialize (Hm w Hw). destruct (m w) as [[a|e|] w1]; simpl in *; try done.
  by apply Hf.
Qed.

Lemma preserves_wf_effect (f : world → world) :
  (∀ w, db (f w) = db w) → preserves_wf (effect f).
Proof. intros Hf w Hw. unfold effect. simpl. by rewrite Hf. Qed.

Lemma preserves_wf_read {A} (f : world → A) : preserves_wf (read f).
Proof. by intros w. Qed.

Lemma preserves_wf_reject {A} e : preserves_wf (@reject A e).
Proof. by intros w. Qed.

Lemma preserves_wf_request {A} s (op : store → error + A * store) :
  (∀ st a st', store_wf s st → op st = inr (a, st') → store_wf s st') →
  preserves_wf (request s op).
Proof.
  intros Hop w Hw. unfold request.
  destruct (next_fault w); [done|].
  destruct (op (objectStore (db w) s)) as [e|[a st']] eqn:E; [done|]. simpl.
  apply with_store_wf; [done|]. eapply Hop; eauto.
Qed.

Lemma preserves_wf_try_catch {A} (body : async A) handler :
  preserves_wf body → (∀ e, preserves_wf (handler e)) →
  preserves_wf (try_catch body handler).
Proof.
  intros Hb Hh w Hw. unfold try_catch.
  specialize (Hb w Hw). destruct (body w) as [[a|e|] w1]; simpl in *; try done.
  by apply Hh.
Qed.

Lemma preserves_wf_for_of {A} (l : list A) body :
  (∀ x, preserves_wf (body x)) → preserves_wf (for_of l body).
Proof.
  intros Hb. induction l as [|x l IH]; simpl.
  - apply preserves_wf_ret.
  - apply preserves_wf_bind; auto.
Qed.

Lemma preserves_wf_promise_all ps :
  Forall preserves_wf ps → preserves_wf (promise_all ps).
Proof.
  induction 1 as [|p ps Hp _ IH]; intros w Hw; simpl; [done|].
  specialize (Hp w Hw). destruct (p w) as [o w1].
  specialize (IH w1 Hp). by destruct (promise_all ps w1) as [os w2].
Qed.

Create HintDb wf discriminated.

#[local] Hint Resolve preserves_wf_ret preserves_wf_read preserves_wf_reject
  preserves_wf_try_catch preserves_wf_for_of : wf.
#[local] Hint Extern 1 (preserves_wf (_ ≫= _)) =>
  apply preserves_wf_bind; [|intros ?] : wf.
#[local] Hint Extern 1 (preserves_wf (effect _)) =>
  apply preserves_wf_effect; intros []; reflexivity : wf.
#[local] Hint Extern 1 (preserves_wf (toast _)) =>
  apply preserves_wf_effect; intros []; reflexivity : wf.
#[local] Hint Extern 2 (preserves_wf (if ?b then _ else _)) => destruct b : wf.
#[local] Hint Extern 2 (preserves_wf (match ?x with _ => _ end)) => destruct x : wf.

Lemma idbGetAll_wf s : preserves_wf (idbGetAll s).
Proof.
  unfold idbGetAll. apply preserves_wf_bind; [auto with wf|intros _].
  apply preserves_wf_request. by intros; simplify_eq.
Qed.

Lemma idbIndexGetAll_wf s n v : preserves_wf (idbIndexGetAll s n v).
Proof.
  unfold idbIndexGetAll. apply preserves_wf_bind; [auto with wf|intros _].
  destruct (find_index s n); [|auto with wf].
  destruct (to_key v); [|auto with wf].
  apply preserves_wf_request. by intros; simplify_eq.
Qed.

Lemma idbAdd_wf s v : preserves_wf (idbAdd s v).
Proof.
  unfold idbAdd. apply preserves_wf_bind; [auto with wf|intros _].
  destruct (key_of_value s v) as [e|ek] eqn:E; [auto with wf|].
  apply preserves_wf_bind; [|auto with wf].
  apply preserves_wf_request. intros. by eapply store_record_wf.
Qed.

Lemma idbPut_wf s v : preserves_wf (idbPut s v).
Proof.
  unfold idbPut. apply preserves_wf_bind; [auto with wf|intros _].
  destruct (key_of_value s v) as [e|ek] eqn:E; [auto with wf|].
  apply preserves_wf_bind; [|auto with wf].
  apply preserves_wf_request. intros. by eapply store_record_wf.
Qed.

Lemma idbDelete_wf s k : preserves_wf (idbDelete s k).
Proof.
  unfold idbDelete. apply preserves_wf_bind; [auto with wf|intros _].
  destruct (to_key k); [|auto with wf].
  apply preserves_wf_request. intros; simplify_eq. by apply delete_wf.
Qed.

#[local] Hint Resolve idbGetAll_wf idbIndexGetAll_wf idbAdd_wf idbPut_wf
  idbDelete_wf : wf.

Lemma promptModal_wf v : preserves_wf (promptModal v).
Proof. intros w Hw. unfold promptModal. by destruct (dialog w) as [|[]]. Qed.

Lemma renderAll_wf : preserves_wf renderAll.
Proof. intros w Hw. by rewrite renderAll_db. Qed.

Lemma renderMemos_wf : preserves_wf renderMemos.
Proof. intros w Hw. by rewrite renderMemos_db. Qed.

Lemma renderTasks_wf : preserves_wf renderTasks.
Proof. intros w Hw. by rewrite renderTasks_db. Qed.

#[local] Hint Resolve promptModal_wf renderAll_wf renderMemos_wf renderTasks_wf : wf.

Lemma ensureTodayJour_wf : preserves_wf ensureTodayJour.
Proof. unfold ensureTodayJour, todayISO, nowTime. auto 20 with wf. Qed.

#[local] Hint Resolve ensureTodayJour_wf : wf.

(** Every action keeps a consistent database consistent; the database
    [openDB] creates is consistent. *)
Lemma actions_preserve_wf :
  database_wf (openDB None) ∧
  preserves_wf main ∧
  preserves_wf addMemo ∧ preserves_wf addTask ∧
  (∀ title, preserves_wf (setCurrentJour title)) ∧
  (∀ memo, preserves_wf (editMemo memo)) ∧
  (∀ jourTitle, preserves_wf (deleteJour jourTitle)) ∧
  (∀ memoId, preserves_wf (deleteMemo memoId)) ∧
  (∀ taskId, preserves_wf (deleteTask taskId)) ∧
  (∀ task, preserves_wf (toggleTaskDone task)).
Proof.
  split; [apply upgraded_wf|].
  unfold main, addMemo, addTask, setCurrentJour, editMemo, deleteJour,
    deleteMemo, deleteTask, toggleTaskDone, nowTime.
  repeat apply conj; intros; auto 30 with wf.
Qed.

(** * Further properties of the code *)

(** ** [escapeHTML] *)

Lemma entity_cases c :
  (c = char "&" ∧ entity c = Some (lit "&amp;")) ∨
  (c = char "<" ∧ entity c = Some (lit "&lt;")) ∨
  (c = char ">" ∧ entity c = Some (lit "&gt;")) ∨
  (c = char "034" ∧ entity c = Some (lit "&quot;")) ∨
  (c = char "'" ∧ entity c = Some (lit "&#39;")) ∨
  (entity c = None ∧ c ≠ char "&" ∧ c ≠ char "<" ∧ c ≠ char ">" ∧
   c ≠ char "034" ∧ c ≠ char "'").
Proof.
  unfold entity.
  destruct (N.eqb_spec c (char "&")); [subst; auto|].
  destruct (N.eqb_spec c (char "<")); [subst; auto 6|].
  destruct (N.eqb_spec c (char ">")); [subst; auto 6|].
  destruct (N.eqb_spec c (char "034")); [subst; auto 8|].
  destruct (N.eqb_spec c (char "'")); [subst; auto 10|].
  auto 20.
Qed.

Ltac entity_split c :=
  cbn [escapeHTML];
  let He := fresh "He" in
  destruct (entity_cases c) as
    [[-> He]|[[-> He]|[[-> He]|[[-> He]|[[-> He]|(He & ? & ? & ? & ? & ?)]]]]];
  rewrite ?He.

(** Spells out the code units of the literals in the goal. *)
Ltac spell :=
  change (char "&") with 38%N in *; change (char "<") with 60%N in *;
  change (char ">") with 62%N in *; change (char "034") with 34%N in *;
  change (char "'") with 39%N in *;
  change (lit "&amp;") with [38; 97; 109; 112; 59]%N in *;
  change (lit "&lt;") with [38; 108; 116; 59]%N in *;
  change (lit "&gt;") with [38; 103; 116; 59]%N in *;
  change (lit "&quot;") with [38; 113; 117; 111; 116; 59]%N in *;
  change (lit "&#39;") with [38; 35; 51; 57; 59]%N in *;
  cbn [app] in *.

(** X1: whatever the input, the output of [escapeHTML] contains no
    less-than, greater-than, double-quote or apostrophe character. *)
Theorem escapeHTML_no_markup (s : utf16) (c : code_unit) :
  In c (escapeHTML s) →
  c ≠ char "<" ∧ c ≠ char ">" ∧ c ≠ char "034" ∧ c ≠ char "'".
Proof.
  induction s as [|c0 s IH]; [done|].
  entity_split c0; spell; simpl; intros Hin.
  all: repeat (destruct Hin as [<-|Hin]; [by repeat split|]); auto.
Qed.

Lemma escapeHTML_no_markup_witness :
  In (char "&") (escapeHTML "<b>Tom's</b>") ∧
  char "&" ≠ char "<" ∧ char "&" ≠ char ">" ∧ char "&" ≠ char "034" ∧
  char "&" ≠ char "'".
Proof.
  assert (In (char "&") (escapeHTML "<b>Tom's</b>")) as Hin
    by (left; reflexivity).
  split; [exact Hin|]. exact (escapeHTML_no_markup "<b>Tom's</b>" (char "&") Hin).
Defined.

Example escapeHTML_sample :
  escapeHTML "<b>Tom's & Co</b>" = lit "&lt;b&gt;Tom&#39;s &amp; Co&lt;/b&gt;".
Proof. reflexivity. Qed.

(** X2: [escapeHTML] loses nothing: two strings with the same escaped form
    are the same string. *)
Theorem escapeHTML_injective (s1 s2 : utf16) :
  escapeHTML s1 = escapeHTML s2 → s1 = s2.
Proof.
  revert s2. induction s1 as [|c1 s1 IH]; intros [|c2 s2]; [done|..].
  - entity_split c2; spell; done.
  - entity_split c1; spell; done.
  - entity_split c1; entity_split c2; spell; intros Heq;
      simplify_eq; try done; f_equal; auto.
Qed.

Lemma escapeHTML_injective_witness : lit "a&b" = lit "a&b".
Proof. apply (escapeHTML_injective "a&b" "a&b"). reflexivity. Defined.

(** X3: escaping commutes with concatenation, so a page assembled from
    escaped pieces is the escaped assembly. *)
Theorem escapeHTML_app (s1 s2 : utf16) :
  escapeHTML (s1 ++ s2)%list = (escapeHTML s1 ++ escapeHTML s2)%list.
Proof.
  induction s1 as [|c s1 IH]; [done|].
  change ((c :: s1) ++ s2)%list with (c :: (s1 ++ s2))%list.
  entity_split c; rewrite IH; spell; done.
Qed.

(** X4: the output is never shorter than the input and at most six times as
    long, and [escapeHTML] returns its input unchanged exactly when the input
    has none of the five characters. *)
Theorem escapeHTML_length (s : utf16) :
  (List.length s ≤ List.length (escapeHTML s) ≤ 6 * List.length s)%nat ∧
  (escapeHTML s = s ↔ Forall (λ c, entity c = None) s).
Proof.
  assert (Hlen : ∀ s : utf16,
    (List.length s ≤ List.length (escapeHTML s) ≤ 6 * List.length s)%nat).
  { clear s. induction s as [|c s IH]; [simpl; lia|].
    entity_split c; spell; simpl; lia. }
  split; [apply Hlen|]. induction s as [|c s IH].
  - split; [constructor|done].
  - split.
    + pose proof (Hlen s) as Hs.
      entity_split c; spell; intros Heq; simplify_eq.
      all: try (apply (f_equal List.length) in Heq; simpl in Heq; lia).
      constructor; [done|]. by apply IH.
    + simpl. intros [Hc Hs]%Forall_cons. rewrite Hc. f_equal. by apply IH.
Qed.

(** ** The wrappers, one request at a time *)

(** X5: a wrapper call that rejects, for whatever reason, has written
    nothing: the database is as it was. *)
Theorem rejected_call_writes_nothing (w : world) (s : store_name) (v : obj)
    (k : value) (n : string) (e : error) :
  ((idbAdd s v w).1 = Rejected e → db (idbAdd s v w).2 = db w) ∧
  ((idbPut s v w).1 = Rejected e → db (idbPut s v w).2 = db w) ∧
  ((idbDelete s k w).1 = Rejected e → db (idbDelete s k w).2 = db w) ∧
  ((idbGetAll s w).1 = Rejected e → db (idbGetAll s w).2 = db w) ∧
  ((idbIndexGetAll s n k w).1 = Rejected e → db (idbIndexGetAll s n k w).2 = db w).
Proof.
  unfold idbAdd, idbPut, idbDelete, idbGetAll, idbIndexGetAll, request.
  async_simpl. repeat split; repeat case_match; simplify_eq; done.
Qed.

Lemma rejected_call_writes_nothing_witness :
  let v : obj := {[ "jour_title" := Str "2024-01-01" ]} in
  (idbAdd Jour v sample_world).1 = Rejected ConstraintError ∧
  db (idbAdd Jour v sample_world).2 = db sample_world.
Proof.
  intros v.
  destruct (rejected_call_writes_nothing sample_world Jour v Null "jour_title"
              ConstraintError) as (Hadd & _).
  assert ((idbAdd Jour v sample_world).1 = Rejected ConstraintError) as H
    by (vm_compute; reflexivity).
  split; [exact H|exact (Hadd H)].
Defined.

(** X6: fetching and rendering only read.  Whatever the device does, the two
    fetch wrappers and the four render functions leave the database as it
    is, and [renderAll] always makes its three fetches, in the same order. *)
Theorem rendering_never_writes (w : world) (s : store_name) (n : string)
    (v : value) :
  db (idbGetAll s w).2 = db w ∧
  db (idbIndexGetAll s n v w).2 = db w ∧
  db (renderJour w).2 = db w ∧
  db (renderMemos w).2 = db w ∧
  db (renderTasks w).2 = db w ∧
  db (renderAll w).2 = db w ∧
  calls (renderAll w).2 =
    (calls w ++ [GetAll Jour;
                 IndexGetAll Memos "jour_title" (currentJourTitle w);
                 IndexGetAll Tasks "jour_title" (currentJourTitle w)])%list.
Proof.
  repeat split; auto using idbGetAll_db, idbIndexGetAll_db, renderJour_db,
    renderMemos_db, renderTasks_db, renderAll_db.
  apply renderAll_frame.
Qed.

(** X7: a delete by a valid key that the device lets through always
    resolves: afterwards the key is free, every other record, the key
    generator and the other stores are as before; deleting a key that was not
    stored changes nothing at all. *)
Theorem idbDelete_removes_one (w : world) (s : store_name) (v : value) (k : key) :
  next_fault w = None →
  to_key v = Some k →
  let st := objectStore (db w) s in
  let st' := objectStore (db (idbDelete s v w).2) s in
  (idbDelete s v w).1 = Resolved () ∧
  recs st' !! k = None ∧
  (∀ k', k' ≠ k → recs st' !! k' = recs st !! k') ∧
  gen st' = gen st ∧
  (∀ s', s' ≠ s → objectStore (db (idbDelete s v w).2) s' = objectStore (db w) s') ∧
  (recs st !! k = None → db (idbDelete s v w).2 = db w).
Proof.
  intros Hf Hk st st'. subst st st'. unfold idbDelete. async_simpl. rewrite Hk.
  rewrite request_next by done. simpl.
  rewrite objectStore_with_store. simpl. repeat split.
  - apply lookup_delete_eq.
  - intros k' Hne. by apply lookup_delete_ne.
  - intros s' Hne. by apply objectStore_with_store_ne.
  - intros Hnone. rewrite delete_id by done. by rewrite store_eta, with_store_same.
Qed.

Lemma idbDelete_removes_one_witness :
  (idbDelete Memos (Num 7) sample_world).1 = Resolved () ∧
  db (idbDelete Memos (Num 7) sample_world).2 = db sample_world.
Proof.
  destruct (idbDelete_removes_one sample_world Memos (Num 7) (KNum 7)
              eq_refl eq_refl) as (H1 & _ & _ & _ & _ & H2).
  split; [exact H1|]. apply H2. reflexivity.
Defined.

(** An [undefined] at the key path is no key at all: the store treats the
    record as it treats the record without that property. *)
Lemma undefined_key_is_absent (b : bool) (s : store_name) (r : obj) (st : store) :
  r !! keyPath s = Some Undefined →
  key_of_value s r = inr None ∧
  key_of_value s (delete (keyPath s) r) = inr None ∧
  store_record b s None r st = store_record b s None (delete (keyPath s) r) st.
Proof.
  intros Hr. unfold key_of_value, extract_key, store_record.
  by rewrite Hr, lookup_delete_eq, insert_delete_eq.
Qed.

(** The store itself refuses a record only for a constraint. *)
Lemma store_record_error b s ek v st e :
  store_record b s ek v st = inl e → e = ConstraintError.
Proof.
  unfold store_record. intros H. repeat case_match; by simplify_eq.
Qed.

(** X8: a value that is not a key never reaches the store.  Deleting by it
    or fetching an index by it rejects with [DataError], and so does adding
    or putting a record whose key-path property holds it, unless it is
    [undefined]; no request is placed (the device is not consulted) and
    nothing is written.  An [undefined] at the key path is no key at all:
    the add or put goes the way of the record without that property (the
    generator supplies the key) and is never answered with [DataError]. *)
Theorem invalid_key_is_DataError (w : world) (s : store_name) (v : value)
    (n : string) (r : obj) :
  to_key v = None →
  idbDelete s v w = (Rejected DataError, add_call (Delete s v) w) ∧
  (is_Some (find_index s n) →
   idbIndexGetAll s n v w = (Rejected DataError, add_call (IndexGetAll s n v) w)) ∧
  (r !! keyPath s = Some v → v ≠ Undefined →
   idbAdd s r w = (Rejected DataError, add_call (Add s r) w) ∧
   idbPut s r w = (Rejected DataError, add_call (Put s r) w)) ∧
  (r !! keyPath s = Some Undefined →
   let r' := delete (keyPath s) r in
   (idbAdd s r w).1 = (idbAdd s r' w).1 ∧
   db (idbAdd s r w).2 = db (idbAdd s r' w).2 ∧
   (idbPut s r w).1 = (idbPut s r' w).1 ∧
   db (idbPut s r w).2 = db (idbPut s r' w).2 ∧
   (idbAdd s r w).1 ≠ Rejected DataError ∧
   (idbPut s r w).1 ≠ Rejected DataError).
Proof.
  intros Hk. split; [|split; [|split]].
  - unfold idbDelete. async_simpl. by rewrite Hk.
  - intros [idx Hidx]. unfold idbIndexGetAll. async_simpl. by rewrite Hidx, Hk.
  - intros Hr Hv. split.
    + unfold idbAdd, key_of_value, extract_key. rewrite Hr, Hk. by destruct v.
    + unfold idbPut, key_of_value, extract_key. rewrite Hr, Hk. by destruct v.
  - intros Hr r'. subst r'.
    destruct (undefined_key_is_absent true s r (objectStore (db w) s) Hr)
      as (Hkr & Hkr' & Hadd).
    destruct (undefined_key_is_absent false s r (objectStore (db w) s) Hr)
      as (_ & _ & Hput).
    unfold idbAdd, idbPut. rewrite Hkr, Hkr'. unfold request. async_simpl.
    change (next_fault (add_call _ w)) with (next_fault w).
    rewrite <- Hadd, <- Hput. destruct (next_fault w); [by repeat split|].
    pose proof (store_record_error true s None r (objectStore (db w) s)) as Ha.
    pose proof (store_record_error false s None r (objectStore (db w) s)) as Hp.
    destruct (store_record true s None r _) as [ea|[ka sta]];
      destruct (store_record false s None r _) as [ep|[kp stp]]; simpl;
      repeat split; try done;
      try (rewrite (Ha ea eq_refl); done); try (rewrite (Hp ep eq_refl); done).
Qed.

Lemma invalid_key_is_DataError_witness :
  idbDelete Tasks Undefined sample_world
    = (Rejected DataError, add_call (Delete Tasks Undefined) sample_world) ∧
  idbPut Tasks {[ "id" := Bool true ]} sample_world
    = (Rejected DataError, add_call (Put Tasks {[ "id" := Bool true ]}) sample_world) ∧
  (idbAdd Tasks {[ "id" := Undefined; "title" := Str "z" ]} sample_world).1
    = (idbAdd Tasks {[ "title" := Str "z" ]} sample_world).1.
Proof.
  destruct (invalid_key_is_DataError sample_world Tasks Undefined "done"
              {[ "id" := Undefined; "title" := Str "z" ]} eq_refl)
    as (H1 & _ & _ & H4).
  destruct (invalid_key_is_DataError sample_world Tasks (Bool true) "done"
              {[ "id" := Bool true ]} eq_refl) as (_ & _ & H3 & _).
  split; [exact H1|]. split; [apply H3; [reflexivity|discriminate]|].
  destruct H4 as (H & _); [reflexivity|]. exact H.
Defined.

Example undefined_key_sample :
  (idbAdd Tasks {[ "id" := Undefined; "title" := Str "z" ]} sample_world).1
    = Resolved (Num 2) ∧
  (idbPut Tasks {[ "id" := Undefined; "title" := Str "z" ]} sample_world).1
    = Resolved (Num 2).
Proof. by vm_compute. Qed.

(** X9: [idbPut] is an upsert.  A value carrying key [k] that clashes with
    no unique index (on memos and tasks nothing ever clashes), put through a
    willing device, resolves to [k]; afterwards the store holds exactly that
    value under [k], whether or not [k] was taken, every other record is as
    before, the key generator has not gone down, and the other stores are
    untouched. *)
Theorem idbPut_upserts (w : world) (s : store_name) (v : obj) (k : key) :
  next_fault w = None →
  v !! keyPath s = Some (of_key k) →
  ¬ clashes s k v (recs (objectStore (db w) s)) →
  let st := objectStore (db w) s in
  let st' := objectStore (db (idbPut s v w).2) s in
  (idbPut s v w).1 = Resolved (of_key k) ∧
  recs st' !! k = Some v ∧
  (∀ k', k' ≠ k → recs st' !! k' = recs st !! k') ∧
  gen st ≤ gen st' ∧
  (∀ s', s' ≠ s → objectStore (db (idbPut s v w).2) s' = objectStore (db w) s').
Proof.
  intros Hf Hv Hc st st'. subst st st'.
  rewrite (idbPut_keyed s v k) by done. simpl.
  rewrite objectStore_with_store. simpl. repeat split.
  - apply lookup_insert_eq.
  - intros k' Hne. by apply lookup_insert_ne.
  - apply possibly_update_ge.
  - intros s' Hne. by apply objectStore_with_store_ne.
Qed.

Lemma idbPut_upserts_witness :
  let v : obj := {[ "memo_id" := Num 5; "memo_title" := Str "z" ]} in
  (idbPut Memos v sample_world).1 = Resolved (Num 5) ∧
  recs (st_memos (db (idbPut Memos v sample_world).2)) !! KNum 5 = Some v ∧
  recs (st_memos (db (idbPut Memos v sample_world).2)) !! KNum 1 = Some sample_memo ∧
  gen (st_memos (db (idbPut Memos v sample_world).2)) = 6.
Proof.
  intros v.
  destruct (idbPut_upserts sample_world Memos v (KNum 5) eq_refl eq_refl
              (memos_no_clash _ _ _)) as (H1 & H2 & H3 & _ & _).
  split; [exact H1|]. split; [exact H2|]. split.
  - etrans; [apply (H3 (KNum 1)); discriminate|reflexivity].
  - vm_compute. reflexivity.
Defined.

(** X10: [idbAdd] never overwrites.  A value that carries a key already
    taken in the store is rejected with [ConstraintError] and nothing is
    written, where [idbPut] would have replaced the record. *)
Theorem idbAdd_never_overwrites (w : world) (s : store_name) (v old : obj)
    (k : key) :
  next_fault w = None →
  v !! keyPath s = Some (of_key k) →
  recs (objectStore (db w) s) !! k = Some old →
  (idbAdd s v w).1 = Rejected ConstraintError ∧
  db (idbAdd s v w).2 = db w.
Proof.
  intros Hf Hv Hold. apply extract_key_Key in Hv.
  unfold idbAdd, key_of_value. rewrite Hv. async_simpl.
  rewrite request_next by done. unfold store_record. simpl.
  rewrite bool_decide_eq_true_2; [done|]. rewrite Hold. eauto.
Qed.

Lemma idbAdd_never_overwrites_witness :
  let v : obj := {[ "id" := Num 1; "title" := Str "other" ]} in
  (idbAdd Tasks v sample_world).1 = Rejected ConstraintError ∧
  db (idbAdd Tasks v sample_world).2 = db sample_world.
Proof.
  intros v.
  apply (idbAdd_never_overwrites sample_world Tasks v sample_task (KNum 1));
    reflexivity.
Defined.

(** X11: insert then look up.  On a consistent store, a value without key
    that clashes with no unique index, inserted through a willing device
    while the generator is not exhausted, resolves to the generator's number
    [g]; afterwards the store holds the value with its key property set to
    [g] under [g], every earlier record is as before, the generator stands at
    [g + 1], and a fetch of all records lists the new record. *)
Theorem idbAdd_then_lookup (w : world) (s : store_name) (v : obj) :
  let st := objectStore (db w) s in
  let g := gen st in
  let stored := <[keyPath s := Num g]> v in
  next_fault w = None →
  store_wf s st →
  extract_key v (keyPath s) = Absent →
  g ≤ max_generated →
  ¬ clashes s (KNum g) stored (recs st) →
  let st' := objectStore (db (idbAdd s v w).2) s in
  (idbAdd s v w).1 = Resolved (Num g) ∧
  recs st !! KNum g = None ∧
  recs st' !! KNum g = Some stored ∧
  (∀ k, k ≠ KNum g → recs st' !! k = recs st !! k) ∧
  gen st' = g + 1 ∧
  stored ∈ records st' ∧
  (∀ s', s' ≠ s → objectStore (db (idbAdd s v w).2) s' = objectStore (db w) s').
Proof.
  intros st g stored Hf Hwf Habs Hg Hc st'. subst st'.
  assert (Hfree : recs st !! KNum g = None) by by apply (generated_key_free s).
  pose proof (idbAdd_fresh s v w Hf Habs Hg Hfree Hc) as Hadd. fold st g stored in Hadd.
  rewrite Hadd. simpl. rewrite objectStore_with_store. simpl. repeat split; try done.
  - apply lookup_insert_eq.
  - intros k Hne. by apply lookup_insert_ne.
  - apply elem_of_records. exists (KNum g). apply lookup_insert_eq.
  - intros s' Hne. by apply objectStore_with_store_ne.
Qed.

Lemma idbAdd_then_lookup_witness :
  let v : obj := {[ "title" := Str "z"; "done" := Num 0 ]} in
  (idbAdd Tasks v sample_world).1 = Resolved (Num 2) ∧
  recs (st_tasks (db (idbAdd Tasks v sample_world).2)) !! KNum 2
    = Some (<["id" := Num 2]> v).
Proof.
  intros v.
  destruct (idbAdd_then_lookup sample_world Tasks v eq_refl (sample_db_wf Tasks)
              eq_refl) as (H1 & _ & H2 & _); [by vm_compute|apply tasks_no_clash|].
  split; [exact H1|exact H2].
Defined.

Lemma code_units_leb_trans x y z :
  code_units_leb x y = true → code_units_leb y z = true →
  code_units_leb x z = true.
Proof.
  revert y z. induction x as [|a x IH]; intros [|b y] [|c z]; simpl; try done.
  rewrite !orb_true_iff, !andb_true_iff, !N.ltb_lt, !N.eqb_eq.
  intros [Hab|[-> Hxy]] [Hbc|[-> Hyz]]; [left; lia|by left|by left|].
  right. split; [done|]. by apply (IH y).
Qed.

Lemma code_units_leb_total x y :
  code_units_leb x y = true ∨ code_units_leb y x = true.
Proof.
  revert y. induction x as [|a x IH]; intros [|b y]; simpl; auto.
  destruct (N.lt_trichotomy a b) as [Hlt|[->|Hlt]].
  - left. apply orb_true_iff. left. by apply N.ltb_lt.
  - rewrite N.ltb_irrefl, N.eqb_refl. simpl. apply IH.
  - right. apply orb_true_iff. left. by apply N.ltb_lt.
Qed.

#[local] Instance entry_le_trans : Transitive entry_le.
Proof.
  intros [[x|x] ?] [[y|y] ?] [[z|z] ?]; unfold entry_le; simpl; try done.
  - rewrite !Z.leb_le. lia.
  - apply code_units_leb_trans.
Qed.

#[local] Instance entry_le_total : Total entry_le.
Proof.
  intros [[x|x] ?] [[y|y] ?]; unfold entry_le; simpl; auto.
  - rewrite !Z.leb_le. lia.
  - apply code_units_leb_total.
Qed.

(** X12: a fetch of all records that the device lets through resolves to the
    stored records in ascending key order: each stored record exactly once,
    under its key, and nothing else. *)
Theorem idbGetAll_in_key_order (w : world) (s : store_name) :
  next_fault w = None →
  ∃ entries : list (key * obj),
    (idbGetAll s w).1 = Resolved entries.*2 ∧
    StronglySorted entry_le entries ∧
    NoDup entries.*1 ∧
    ∀ k r, (k, r) ∈ entries ↔ recs (objectStore (db w) s) !! k = Some r.
Proof.
  intros Hf.
  exists (merge_sort entry_le (map_to_list (recs (objectStore (db w) s)))).
  split; [|split; [|split]].
  - unfold idbGetAll. async_simpl. by rewrite request_next by done.
  - apply StronglySorted_merge_sort; apply _.
  - rewrite merge_sort_Permutation. apply NoDup_fst_map_to_list.
  - intros k r. rewrite merge_sort_Permutation. apply elem_of_map_to_list.
Qed.

Lemma idbGetAll_in_key_order_witness :
  ∃ entries : list (key * obj),
    (idbGetAll Jour sample_world).1 = Resolved entries.*2 ∧
    StronglySorted entry_le entries ∧
    NoDup entries.*1 ∧
    ∀ k r, (k, r) ∈ entries ↔ recs (objectStore (db sample_world) Jour) !! k = Some r.
Proof. apply (idbGetAll_in_key_order sample_world Jour). reflexivity. Defined.

(** X13: only the indexes [openDB] creates can be fetched from.  Any index
    name other than [jour_title], and other than [done] on the task store,
    makes the fetch reject with [NotFoundError] before any request is
    placed. *)
Theorem unknown_index_is_NotFoundError (w : world) (s : store_name) (n : string)
    (v : value) :
  n ≠ "jour_title" →
  (s = Tasks → n ≠ "done") →
  idbIndexGetAll s n v w = (Rejected NotFoundError, add_call (IndexGetAll s n v) w).
Proof.
  intros Hn Hdone. unfold idbIndexGetAll. async_simpl.
  assert (find_index s n = None) as ->; [|done].
  unfold find_index.
  destruct s; cbn [indexes List.find ix_name];
    destruct (String.eqb_spec "jour_title" n); try done.
  destruct (String.eqb_spec "done" n); [|done]. by destruct Hdone.
Qed.

Lemma unknown_index_is_NotFoundError_witness :
  idbIndexGetAll Memos "done" (Num 0) sample_world
    = (Rejected NotFoundError, add_call (IndexGetAll Memos "done" (Num 0)) sample_world).
Proof.
  apply (unknown_index_is_NotFoundError sample_world Memos "done" (Num 0));
    discriminate.
Defined.

(** X14: the [done] index of the task store answers like the title indexes:
    fetched through a willing device for any key value [d], it resolves to
    exactly the stored tasks whose [done] property is [d], and writes
    nothing.  Tasks whose [done] is not a key (a boolean, say) are never
    listed. *)
Theorem done_index_exact (w : world) (d : key) :
  next_fault w = None →
  ∃ l,
    (idbIndexGetAll Tasks "done" (of_key d) w).1 = Resolved l ∧
    db (idbIndexGetAll Tasks "done" (of_key d) w).2 = db w ∧
    l ≡ₚ (filter (λ kr, kr.2 !! "done" = Some (of_key d))
                 (map_to_list (recs (st_tasks (db w))))).*2 ∧
    (∀ r, r ∈ l → to_key (get r "done") = Some d).
Proof.
  intros Hf. exists (index_records "done" d (st_tasks (db w))).
  split; [|split; [apply idbIndexGetAll_db|split]].
  - unfold idbIndexGetAll. async_simpl. rewrite to_key_of_key.
    by rewrite request_next by done.
  - apply index_records_Permutation.
  - intros r (k & _ & Hr)%elem_of_index_records. unfold get. rewrite Hr.
    apply to_key_of_key.
Qed.

Lemma done_index_exact_witness :
  ∃ l,
    (idbIndexGetAll Tasks "done" (Num 0) sample_world).1 = Resolved l ∧
    db (idbIndexGetAll Tasks "done" (Num 0) sample_world).2 = db sample_world ∧
    l ≡ₚ (filter (λ kr, kr.2 !! "done" = Some (Num 0))
                 (map_to_list (recs (st_tasks (db sample_world))))).*2 ∧
    (∀ r, r ∈ l → to_key (get r "done") = Some (KNum 0)).
Proof. apply (done_index_exact sample_world (KNum 0)). reflexivity. Defined.

(** ** Adding, editing and deleting memos and tasks *)

Lemma truthy_Str s : s ≠ [] → truthy (Str s) = true.
Proof. intros Hs. simpl. by rewrite bool_decide_eq_false_2. Qed.

Lemma render_one_frame s w :
  let r := (t ← read currentJourTitle;
            _ ← idbIndexGetAll s "jour_title" t;
            mret ()) w in
  db r.2 = db w ∧ toasts r.2 = toasts w ∧
  calls r.2 = (calls w ++ [IndexGetAll s "jour_title" (currentJourTitle w)])%list ∧
  (next_fault w = None → is_Some (to_key (currentJourTitle w)) → r.1 = Resolved ()).
Proof.
  unfold idbIndexGetAll, request. async_simpl.
  assert (find_index s "jour_title" = Some (Index "jour_title" "jour_title"
            (bool_decide (s = Jour)))) as -> by by destruct s.
  assert (Hnf : ∀ c, next_fault (add_call c w) = next_fault w) by done.
  destruct (to_key (currentJourTitle w)); simpl.
  - rewrite ?Hnf. destruct (next_fault w); simpl; rewrite ?with_store_same;
      repeat split; try done.
  - repeat split; try done.
Qed.

Lemma renderMemos_frame w :
  db (renderMemos w).2 = db w ∧ toasts (renderMemos w).2 = toasts w ∧
  calls (renderMemos w).2
    = (calls w ++ [IndexGetAll Memos "jour_title" (currentJourTitle w)])%list ∧
  (next_fault w = None → is_Some (to_key (currentJourTitle w)) →
   (renderMemos w).1 = Resolved ()).
Proof. apply (render_one_frame Memos). Qed.

Lemma renderTasks_frame w :
  db (renderTasks w).2 = db w ∧ toasts (renderTasks w).2 = toasts w ∧
  calls (renderTasks w).2
    = (calls w ++ [IndexGetAll Tasks "jour_title" (currentJourTitle w)])%list ∧
  (next_fault w = None → is_Some (to_key (currentJourTitle w)) →
   (renderTasks w).1 = Resolved ()).
Proof. apply (render_one_frame Tasks). Qed.

(** What an add action does once the dialog has given a text that is not
    blank: one insert of the record [r] into a store without unique index,
    the toast, the render. *)
Lemma add_action_run (s : store_name) (r : obj) (m : toast_msg)
    (render : async unit) (w : world) :
  let st := objectStore (db w) s in
  let g := gen st in
  (∀ w0, db (render w0).2 = db w0 ∧ toasts (render w0).2 = toasts w0 ∧
         calls (render w0).2
           = (calls w0 ++ [IndexGetAll s "jour_title" (currentJourTitle w0)])%list ∧
         (next_fault w0 = None → is_Some (to_key (currentJourTitle w0)) →
          (render w0).1 = Resolved ())) →
  Forall (λ ix, ix_unique ix = false) (indexes s) →
  next_fault w = None →
  store_wf s st →
  extract_key r (keyPath s) = Absent →
  g ≤ max_generated →
  let res := (idbAdd s r;; toast m;; render) w in
  db res.2 = with_store s (Store (g + 1) (<[KNum g := <[keyPath s := Num g]> r]> (recs st)))
                        (db w) ∧
  toasts res.2 = (toasts w ++ [m])%list ∧
  calls res.2 = (calls w ++ [Add s r; IndexGetAll s "jour_title" (currentJourTitle w)])%list ∧
  (device w = [] → is_Some (to_key (currentJourTitle w)) → res.1 = Resolved ()).
Proof.
  intros st g Hrender Hnu Hf Hwf Habs Hg res. subst res.
  unfold mbind, async_bind.
  rewrite idbAdd_fresh
    by (done || by apply (generated_key_free s) || by apply no_unique_no_clash).
  fold st g. unfold toast, effect.
  match goal with |- context [render ?w0] =>
    destruct (Hrender w0) as (Hdb & Ht & Hc & Hres); revert Hdb Ht Hc Hres;
    destruct (render w0) as [o w1] end.
  simpl. intros -> -> -> Hres. rewrite <- app_assoc. repeat split.
  intros Hd Hkey. apply Hres; [|done]. unfold next_fault. simpl. by rewrite Hd.
Qed.

(** X15: [addMemo] with a text that is not blank, on a consistent memo store
    whose generator is not exhausted and through a willing device, inserts
    exactly one memo: the trimmed (hence non-empty) text, the active journal
    title as it stands (whether or not such a journal is stored), the current
    time, under the next generated key.  It makes one insert and one fetch,
    shows the toast, touches no other record, and the new memo is listed
    under the active journal. *)
Theorem addMemo_inserts (w : world) (text : utf16) (rest : list (option utf16)) :
  let g := gen (st_memos (db w)) in
  let memo : obj :=
    {[ "memo_id" := Num g; "memo_title" := Str (trim text);
       "jour_title" := currentJourTitle w; "created_at" := Str (now w) ]} in
  dialog w = Some text :: rest →
  trim text ≠ [] →
  next_fault w = None →
  store_wf Memos (st_memos (db w)) →
  g ≤ max_generated →
  let w' := (addMemo w).2 in
  db w' = Database (st_jour (db w))
                   (Store (g + 1) (<[KNum g := memo]> (recs (st_memos (db w)))))
                   (st_tasks (db w)) ∧
  recs (st_memos (db w)) !! KNum g = None ∧
  toasts w' = (toasts w ++ [MemoAdded])%list ∧
  calls w' = (calls w ++ [Add Memos {[ "memo_title" := Str (trim text);
                                       "jour_title" := currentJourTitle w;
                                       "created_at" := Str (now w) ]};
                          IndexGetAll Memos "jour_title" (currentJourTitle w)])%list ∧
  (∀ T, to_key (currentJourTitle w) = Some T →
        memo ∈ index_records "jour_title" T (st_memos (db w'))) ∧
  (device w = [] → is_Some (to_key (currentJourTitle w)) →
   (addMemo w).1 = Resolved ()).
Proof.
  intros g memo Hdlg Htext Hf Hwf Hg w'. subst w'.
  set (r := ({[ "memo_title" := Str (trim text); "jour_title" := currentJourTitle w;
               "created_at" := Str (now w) ]} : obj)).
  assert (Hrun : addMemo w =
            (idbAdd Memos r;; toast MemoAdded;; renderMemos) (set_dialog rest w)).
  { unfold addMemo, promptModal. unfold mbind at 1. unfold async_bind at 1.
    rewrite Hdlg. by rewrite truthy_Str. }
  rewrite Hrun.
  destruct (add_action_run Memos r MemoAdded renderMemos (set_dialog rest w))
    as (Hdb & Ht & Hc & Hres); try done.
  { apply renderMemos_frame. } { simpl. by repeat constructor. }
  rewrite Hdb, Ht, Hc. simpl. repeat split; try done.
  - by apply (generated_key_free Memos).
  - intros T HT. apply elem_of_index_records. exists (KNum g). split.
    + apply lookup_insert_eq.
    + unfold memo. rewrite lookup_insert_ne by done. rewrite lookup_insert_ne by done.
      rewrite lookup_insert_eq. f_equal. by apply to_key_Some.
Qed.

Lemma addMemo_inserts_witness :
  let w := set_dialog [Some (lit "  buy milk ")] sample_world in
  recs (st_memos (db (addMemo w).2)) !! KNum 2 =
    Some {[ "memo_id" := Num 2; "memo_title" := Str "buy milk";
            "jour_title" := Str "2024-01-01"; "created_at" := Str "10:00" ]} ∧
  (addMemo w).1 = Resolved ().
Proof.
  intros w.
  destruct (addMemo_inserts w "  buy milk " [] eq_refl) as (Hdb & _ & _ & _ & _ & Hres).
  - by vm_compute.
  - reflexivity.
  - apply (sample_db_wf Memos).
  - by vm_compute.
  - split; [|apply Hres; [reflexivity|by eexists]].
    rewrite Hdb. simpl. apply lookup_insert_eq.
Defined.

(** X16: [addTask] with a text that is not blank, on a consistent task store
    whose generator is not exhausted and through a willing device, inserts
    exactly one task under the next generated key: the trimmed text as title,
    [done] set to 0, the active journal title, the current time.  Hence a new
    task is open, and it is listed under the active journal and under [done]
    equal to 0. *)
Theorem addTask_inserts_open_task (w : world) (text : utf16)
    (rest : list (option utf16)) :
  let g := gen (st_tasks (db w)) in
  let task : obj :=
    {[ "id" := Num g; "title" := Str (trim text); "done" := Num 0;
       "jour_title" := currentJourTitle w; "created_at" := Str (now w) ]} in
  dialog w = Some text :: rest →
  trim text ≠ [] →
  next_fault w = None →
  store_wf Tasks (st_tasks (db w)) →
  g ≤ max_generated →
  let w' := (addTask w).2 in
  db w' = Database (st_jour (db w)) (st_memos (db w))
                   (Store (g + 1) (<[KNum g := task]> (recs (st_tasks (db w))))) ∧
  recs (st_tasks (db w)) !! KNum g = None ∧
  toasts w' = (toasts w ++ [TaskAdded])%list ∧
  task ∈ index_records "done" (KNum 0) (st_tasks (db w')) ∧
  (∀ T, to_key (currentJourTitle w) = Some T →
        task ∈ index_records "jour_title" T (st_tasks (db w'))) ∧
  (device w = [] → is_Some (to_key (currentJourTitle w)) →
   (addTask w).1 = Resolved ()).
Proof.
  intros g task Hdlg Htext Hf Hwf Hg w'. subst w'.
  set (r := ({[ "title" := Str (trim text); "done" := Num 0;
               "jour_title" := currentJourTitle w;
               "created_at" := Str (now w) ]} : obj)).
  assert (Hrun : addTask w =
            (idbAdd Tasks r;; toast TaskAdded;; renderTasks) (set_dialog rest w)).
  { unfold addTask, promptModal. unfold mbind at 1. unfold async_bind at 1.
    rewrite Hdlg. by rewrite truthy_Str. }
  rewrite Hrun.
  destruct (add_action_run Tasks r TaskAdded renderTasks (set_dialog rest w))
    as (Hdb & Ht & Hc & Hres); try done.
  { apply renderTasks_frame. } { simpl. by repeat constructor. }
  rewrite Hdb, Ht. simpl. repeat split; try done.
  - by apply (generated_key_free Tasks).
  - apply elem_of_index_records. exists (KNum g). split; [apply lookup_insert_eq|done].
  - intros T HT. apply elem_of_index_records. exists (KNum g). split.
    + apply lookup_insert_eq.
    + unfold task. do 3 (rewrite lookup_insert_ne by done).
      rewrite lookup_insert_eq. f_equal. by apply to_key_Some.
Qed.

Lemma addTask_inserts_open_task_witness :
  let w := set_dialog [Some (lit "laundry")] sample_world in
  recs (st_tasks (db (addTask w).2)) !! KNum 2 =
    Some {[ "id" := Num 2; "title" := Str "laundry"; "done" := Num 0;
            "jour_title" := Str "2024-01-01"; "created_at" := Str "10:00" ]} ∧
  (addTask w).1 = Resolved ().
Proof.
  intros w.
  destruct (addTask_inserts_open_task w "laundry" [] eq_refl)
    as (Hdb & _ & _ & _ & _ & Hres).
  - by vm_compute.
  - reflexivity.
  - apply (sample_db_wf Tasks).
  - by vm_compute.
  - split; [|apply Hres; [reflexivity|by eexists]].
    rewrite Hdb. simpl. apply lookup_insert_eq.
Defined.

(** X17: [editMemo] of a stored memo, confirmed with a text that is not
    blank and let through by the device, replaces the memo's text by the
    trimmed text and nothing else: same key, every other property of the memo
    as before, every other memo as before, the key generator and the other
    stores untouched. *)
Theorem editMemo_replaces_text (w : world) (k : key) (memo : obj) (text : utf16)
    (rest : list (option utf16)) :
  dialog w = Some text :: rest →
  trim text ≠ [] →
  next_fault w = None →
  database_wf (db w) →
  recs (st_memos (db w)) !! k = Some memo →
  let w' := (editMemo memo w).2 in
  db w' = Database (st_jour (db w))
                   (Store (gen (st_memos (db w)))
                          (<[k := <["memo_title" := Str (trim text)]> memo]>
                             (recs (st_memos (db w)))))
                   (st_tasks (db w)) ∧
  (∃ memo', recs (st_memos (db w')) !! k = Some memo' ∧
            memo' !! "memo_title" = Some (Str (trim text)) ∧
            ∀ p, p ≠ "memo_title" → memo' !! p = memo !! p) ∧
  (∀ k', k' ≠ k → recs (st_memos (db w')) !! k' = recs (st_memos (db w)) !! k') ∧
  toasts w' = (toasts w ++ [MemoUpdated])%list.
Proof.
  intros Hdlg Htext Hf Hwf Hk w'. subst w'.
  pose proof (wf_inline _ _ (Hwf Memos) _ _ Hk) as Hid. simpl in Hid.
  set (v := <["memo_title" := Str (trim text)]> memo).
  assert (Hrun : editMemo memo w =
            (idbPut Memos v;; toast MemoUpdated;; renderMemos) (set_dialog rest w)).
  { unfold editMemo, promptModal. unfold mbind at 1. unfold async_bind at 1.
    rewrite Hdlg. simpl strict_eq. cbv iota. by rewrite truthy_Str. }
  rewrite Hrun. unfold mbind, async_bind.
  rewrite (idbPut_keyed Memos v k); [|done| |apply memos_no_clash].
  2:{ unfold v. by rewrite lookup_insert_ne. }
  unfold toast, effect.
  match goal with |- context [renderMemos ?w0] =>
    destruct (renderMemos_frame w0) as (Hdb & Ht & _);
    destruct (renderMemos w0) as [o w1] end.
  simpl in *. rewrite Hdb, Ht.
  assert (Hg : possibly_update k (gen (st_memos (db w))) = gen (st_memos (db w))).
  { destruct k as [z|]; [|done]. apply possibly_update_id.
    eapply (wf_gen _ _ (Hwf Memos)); eauto. }
  rewrite Hg. split; [done|]. split; [|split; [|done]].
  - exists v. simpl. rewrite lookup_insert_eq. split; [done|]. split.
    + unfold v. by rewrite lookup_insert_eq.
    + intros p Hp. unfold v. by rewrite lookup_insert_ne.
  - intros k' Hne. simpl. by rewrite lookup_insert_ne.
Qed.

Lemma editMemo_replaces_text_witness :
  let w := set_dialog [Some (lit " y ")] sample_world in
  recs (st_memos (db (editMemo sample_memo w).2)) !! KNum 1
    = Some (<["memo_title" := Str "y"]> sample_memo).
Proof.
  intros w.
  destruct (editMemo_replaces_text w (KNum 1) sample_memo " y " [] eq_refl)
    as (Hdb & _).
  - by vm_compute.
  - reflexivity.
  - apply sample_db_wf.
  - reflexivity.
  - rewrite Hdb. simpl. apply lookup_insert_eq.
Defined.

(** A cancelled edit is silent.  When the edit dialog is dismissed,
    [editMemo] resolves with no toast, no wrapper call and no change to the
    database; only the dialog answer is consumed.  (A confirmed empty text,
    by contrast, shows the warning toast.) *)
Theorem editMemo_cancel_is_silent (w : world) (memo : obj)
    (rest : list (option utf16)) :
  dialog w = None :: rest →
  editMemo memo w = (Resolved (), set_dialog rest w).
Proof.
  intros Hdlg. unfold editMemo, promptModal. unfold mbind at 1. unfold async_bind.
  by rewrite Hdlg.
Qed.

Lemma editMemo_cancel_is_silent_witness :
  let w := set_dialog [None] sample_world in
  editMemo sample_memo w = (Resolved (), set_dialog [] w).
Proof. intros w. apply (editMemo_cancel_is_silent w sample_memo []). reflexivity. Defined.

(** X18: [deleteMemo] and [deleteTask], given a valid key and a willing
    device, free exactly that key in their store and touch nothing else;
    they show the deleted-toast even when no record was stored under the key,
    in which case the database is unchanged. *)
Theorem delete_one_record (w : world) (v : value) (k : key) :
  next_fault w = None →
  to_key v = Some k →
  db (deleteMemo v w).2 =
    Database (st_jour (db w))
             (Store (gen (st_memos (db w))) (delete k (recs (st_memos (db w)))))
             (st_tasks (db w)) ∧
  toasts (deleteMemo v w).2 = (toasts w ++ [MemoDeleted])%list ∧
  (recs (st_memos (db w)) !! k = None → db (deleteMemo v w).2 = db w) ∧
  db (deleteTask v w).2 =
    Database (st_jour (db w)) (st_memos (db w))
             (Store (gen (st_tasks (db w))) (delete k (recs (st_tasks (db w))))) ∧
  toasts (deleteTask v w).2 = (toasts w ++ [TaskDeleted])%list ∧
  (recs (st_tasks (db w)) !! k = None → db (deleteTask v w).2 = db w).
Proof.
  intros Hf Hk.
  assert (Hdel : ∀ s, idbDelete s v w =
    (Resolved (),
     set_db (with_store s (Store (gen (objectStore (db w) s))
                                 (delete k (recs (objectStore (db w) s)))) (db w))
            (set_device (tail (device w)) (add_call (Delete s v) w)))).
  { intros s. unfold idbDelete. async_simpl. rewrite Hk.
    by rewrite request_next by done. }
  unfold deleteMemo, deleteTask, mbind, async_bind. rewrite !Hdel.
  unfold toast, effect.
  repeat match goal with |- context [renderMemos ?w0] =>
    destruct (renderMemos_frame w0) as (-> & -> & _) end.
  repeat match goal with |- context [renderTasks ?w0] =>
    destruct (renderTasks_frame w0) as (-> & -> & _) end.
  simpl. repeat split.
  - intros Hnone. rewrite delete_id by done. rewrite store_eta. by destruct (db w).
  - intros Hnone. rewrite delete_id by done. rewrite store_eta. by destruct (db w).
Qed.

Lemma delete_one_record_witness :
  recs (st_memos (db (deleteMemo (Num 1) sample_world).2)) = ∅ ∧
  db (deleteTask (Num 9) sample_world).2 = db sample_world.
Proof.
  destruct (delete_one_record sample_world (Num 1) (KNum 1) eq_refl eq_refl)
    as (Hm & _).
  destruct (delete_one_record sample_world (Num 9) (KNum 9) eq_refl eq_refl)
    as (_ & _ & _ & _ & _ & Ht).
  split.
  - rewrite Hm. vm_compute. reflexivity.
  - apply Ht. reflexivity.
Defined.

Lemma idbGetAll_world s w :
  ∃ l, (idbGetAll s w).2 = set_device l (add_call (GetAll s) w).
Proof.
  unfold idbGetAll, request. async_simpl.
  destruct (next_fault _); simpl; rewrite ?with_store_same; eexists;
    [reflexivity|]. destruct w; reflexivity.
Qed.

Lemma idbIndexGetAll_world s n v w :
  ∃ l, (idbIndexGetAll s n v w).2 = set_device l (add_call (IndexGetAll s n v) w).
Proof.
  unfold idbIndexGetAll, request. async_simpl.
  destruct (find_index s n); [|exists (device w); by destruct w].
  destruct (to_key v); [|exists (device w); by destruct w].
  destruct (next_fault _); simpl; rewrite ?with_store_same; eexists;
    [reflexivity|]. destruct w; reflexivity.
Qed.

Lemma promise_all3_world (a b c : async unit) w :
  (promise_all [a; b; c] w).2 = (c (b (a w).2).2).2.
Proof.
  simpl. destruct (a w) as [oa wa]. simpl. destruct (b wa) as [ob wb]. simpl.
  by destruct (c wb) as [oc wc].
Qed.

Lemma renderAll_world w :
  ∃ l, (renderAll w).2 =
         set_device l
           (add_calls [GetAll Jour;
                       IndexGetAll Memos "jour_title" (currentJourTitle w);
                       IndexGetAll Tasks "jour_title" (currentJourTitle w)]
                      (set_heroTitle (currentJourTitle w) w)).
Proof.
  unfold renderAll. unfold mbind at 1 2, async_bind at 1 2, read, effect.
  rewrite promise_all3_world.
  set (w0 := set_heroTitle (currentJourTitle w) w).
  assert (Hj : ∀ w1, (renderJour w1).2 = (idbGetAll Jour w1).2).
  { intros w1. unfold renderJour, mbind, async_bind.
    by destruct (idbGetAll Jour w1) as [[] ?]. }
  assert (Hm : ∀ s w1,
            ((t ← read currentJourTitle; _ ← idbIndexGetAll s "jour_title" t; mret ())
               w1).2
            = (idbIndexGetAll s "jour_title" (currentJourTitle w1) w1).2).
  { intros s w1. unfold mbind, async_bind, read.
    by destruct (idbIndexGetAll s _ _ w1) as [[] ?]. }
  unfold renderMemos, renderTasks. rewrite (Hm Tasks), (Hm Memos), Hj.
  destruct (idbGetAll_world Jour w0) as [l1 ->].
  destruct (idbIndexGetAll_world Memos "jour_title"
              (currentJourTitle (set_device l1 (add_call (GetAll Jour) w0)))
              (set_device l1 (add_call (GetAll Jour) w0))) as [l2 ->].
  match goal with |- context [idbIndexGetAll Tasks ?n ?v ?w1] =>
    destruct (idbIndexGetAll_world Tasks n v w1) as [l3 ->] end.
  exists l3. subst w0. destruct w as [d c p h ts td nw dev dlg cs].
  cbv [set_device add_calls add_call set_heroTitle db currentJourTitle todayPill
       heroTitle toasts today now device dialog calls].
  by rewrite <- !app_assoc.
Qed.

(** X19: [setCurrentJour] only moves the pointer.  For any value, stored as a
    journal title or not, it makes that value the active journal and the text
    of the pill and of the heading, makes the three render fetches for it and
    writes nothing, whatever the device does. *)
Theorem setCurrentJour_moves_pointer_only (w : world) (title : value) :
  let w' := (setCurrentJour title w).2 in
  currentJourTitle w' = title ∧ todayPill w' = title ∧ heroTitle w' = title ∧
  db w' = db w ∧ toasts w' = toasts w ∧
  calls w' = (calls w ++ [GetAll Jour;
                          IndexGetAll Memos "jour_title" title;
                          IndexGetAll Tasks "jour_title" title])%list.
Proof.
  unfold setCurrentJour. async_simpl.
  match goal with |- context [renderAll ?w0] =>
    destruct (renderAll_world w0) as [l ->] end.
  by simpl.
Qed.

(** ** Today's journal, get or create *)

(** With a device that does not fail, [ensureTodayJour] always resolves; what
    it leaves behind depends only on how the store takes the insert. *)
Lemma ensureTodayJour_healthy w :
  device w = [] →
  ensureTodayJour w =
    (Resolved (),
     add_calls [GetAll Jour;
                IndexGetAll Memos "jour_title" (Str (today w));
                IndexGetAll Tasks "jour_title" (Str (today w))]
       (set_heroTitle (Str (today w))
          match store_record true Jour None (today_record w) (st_jour (db w)) with
          | inl _ =>
              add_toast JourExists
                (add_call (Add Jour (today_record w)) (ensure_prelude w))
          | inr (_, st) =>
              add_toast JourCreated
                (set_db (with_store Jour st (db w))
                        (add_call (Add Jour (today_record w)) (ensure_prelude w)))
          end)).
Proof.
  intros Hd. rewrite ensureTodayJour_unfold.
  assert (Hadd : idbAdd Jour (today_record w) (ensure_prelude w) =
    match store_record true Jour None (today_record w) (st_jour (db w)) with
    | inl e => (Rejected e, add_call (Add Jour (today_record w)) (ensure_prelude w))
    | inr (k, st) =>
        (Resolved (of_key k),
         set_db (with_store Jour st (db w))
                (add_call (Add Jour (today_record w)) (ensure_prelude w)))
    end).
  { unfold idbAdd.
    change (key_of_value Jour (today_record w)) with (@inr error _ (@None key)).
    unfold mbind, async_bind, effect, mret, async_ret. cbv beta iota.
    rewrite request_sound by done.
    cbn [objectStore db add_call ensure_prelude set_todayPill set_currentJourTitle].
    by destruct (store_record _ _ _ _ _) as [e|[k st]]. }
  rewrite Hadd.
  destruct (store_record _ _ _ _ _) as [e|[k st]];
    by rewrite (renderAll_sound _ (KStr (today w))).
Qed.

Lemma no_title_no_clash (st : store) (k : key) (v : obj) (T : utf16) :
  v !! "jour_title" = Some (Str T) →
  (∀ k' r, recs st !! k' = Some r → r !! "jour_title" ≠ Some (Str T)) →
  ¬ clashes Jour k v (recs st).
Proof.
  intros Hv Hnone (ix & k' & r & Hix & _ & Hr & _ & _ & Heq)%clashes_elim.
  simpl in Hix. apply list_elem_of_singleton in Hix as ->. simpl in Heq.
  apply (Hnone k' r Hr). apply (index_key_Some r "jour_title" (KStr T)).
  rewrite Heq. by apply index_key_Some.
Qed.

(** X20: get or create.  On a consistent database, with a device that does
    not fail and a journal key generator that is not exhausted,
    [ensureTodayJour] resolves and afterwards exactly one journal has today's
    title.  If one was stored already, the database is unchanged (toast:
    exists); if none was, exactly one record is added, under the next
    generated key, with today's title and the current time (toast:
    created). *)
Theorem ensureTodayJour_get_or_create (w : world) :
  let st := st_jour (db w) in
  let g := gen st in
  let fresh : obj :=
    {[ "jour_id" := Num g; "jour_title" := Str (today w);
       "created_at" := Str (now w) ]} in
  device w = [] →
  database_wf (db w) →
  g ≤ max_generated →
  let w' := (ensureTodayJour w).2 in
  (ensureTodayJour w).1 = Resolved () ∧
  ((∃ k r, recs st !! k = Some r ∧ r !! "jour_title" = Some (Str (today w))) →
   db w' = db w ∧ toasts w' = (toasts w ++ [JourExists])%list) ∧
  ((∀ k r, recs st !! k = Some r → r !! "jour_title" ≠ Some (Str (today w))) →
   db w' = Database (Store (g + 1) (<[KNum g := fresh]> (recs st)))
                    (st_memos (db w)) (st_tasks (db w)) ∧
   toasts w' = (toasts w ++ [JourCreated])%list) ∧
  ∃ r, index_records "jour_title" (KStr (today w)) (st_jour (db w')) = [r].
Proof.
  intros st g fresh Hd Hwf Hg w'. subst w'.
  assert (Hix : Index "jour_title" "jour_title" true ∈ indexes Jour)
    by (simpl; apply list_elem_of_singleton; done).
  rewrite ensureTodayJour_healthy by done. cbn [fst snd]. fold st.
  assert (Hex : (∃ k r, recs st !! k = Some r ∧ r !! "jour_title" = Some (Str (today w))) →
    store_record true Jour None (today_record w) st = inl ConstraintError).
  { intros (k & r & Hk & Hr).
    apply (store_record_clash Jour None _ _ _ k r (KStr (today w)) Hix); try done.
    all: by apply index_key_Some. }
  assert (Hnew : (∀ k r, recs st !! k = Some r → r !! "jour_title" ≠ Some (Str (today w))) →
    store_record true Jour None (today_record w) st
      = inr (KNum g, Store (g + 1) (<[KNum g := fresh]> (recs st)))).
  { intros Hnone. unfold store_record. fold g.
    assert ((max_generated <? g) = false) as -> by lia. cbv beta iota.
    pose proof (generated_key_free Jour st (Hwf Jour) Hg) as Hfree. fold g in Hfree.
    cbn [andb keyPath]. rewrite Hfree.
    rewrite (bool_decide_eq_false_2 (is_Some None)) by (by intros []).
    rewrite bool_decide_eq_false_2; [done|].
    by apply (no_title_no_clash st _ _ (today w)). }
  split; [done|]. split; [|split].
  - intros Hsome. by rewrite (Hex Hsome).
  - intros Hnone. by rewrite (Hnew Hnone).
  - destruct (index_records "jour_title" (KStr (today w)) st) as [|r l] eqn:Hl.
    + assert (Hnone : ∀ k r, recs st !! k = Some r →
                r !! "jour_title" ≠ Some (Str (today w))).
      { intros k r Hk Hr.
        assert (r ∈ index_records "jour_title" (KStr (today w)) st) as Hin
          by (apply elem_of_index_records; eauto).
        rewrite Hl in Hin. by apply elem_of_nil in Hin. }
      rewrite (Hnew Hnone). simpl. exists fresh.
      apply (index_records_unique Jour _ (Index "jour_title" "jour_title" true)
               (KNum g)); try done.
      * apply insert_wf; try done; try lia.
        all: try apply (Hwf Jour).
        all: try (intros z [= <-]; lia).
        all: try by apply (no_title_no_clash st _ _ (today w)).
      * apply lookup_insert_eq.
    + assert (r ∈ index_records "jour_title" (KStr (today w)) st) as Hin
        by (rewrite Hl; left).
      apply elem_of_index_records in Hin as (k & Hk & Hr).
      rewrite Hex by eauto. simpl. exists r.
      apply (index_records_unique Jour _ (Index "jour_title" "jour_title" true) k);
        try done. by apply index_key_Some.
Qed.

Lemma ensureTodayJour_get_or_create_witness :
  let w := World upgraded (Str "x") Undefined Undefined [] "2024-05-05" "08:00"
                 [] [] [] in
  (ensureTodayJour w).1 = Resolved () ∧
  db (ensureTodayJour w).2 =
    Database (Store 2 {[ KNum 1 := {[ "jour_id" := Num 1;
                                      "jour_title" := Str "2024-05-05";
                                      "created_at" := Str "08:00" ]} ]})
             new_store new_store.
Proof.
  intros w.
  destruct (ensureTodayJour_get_or_create w eq_refl upgraded_wf) as (H1 & _ & H2 & _).
  - by vm_compute.
  - split; [exact H1|]. destruct H2 as [H2 _]; [|exact H2].
    intros k r Hk. change (recs (st_jour (db w))) with (∅ : gmap key obj) in Hk.
    by rewrite lookup_empty in Hk.
Defined.

(** X21: [ensureTodayJour] is idempotent on the data.  With a device that
    does not fail, running it a second time (same day) leaves the database
    exactly as the first run left it, whatever the first run did. *)
Theorem ensureTodayJour_idempotent (w : world) :
  device w = [] →
  (ensureTodayJour (ensureTodayJour w).2).1 = Resolved () ∧
  db (ensureTodayJour (ensureTodayJour w).2).2 = db (ensureTodayJour w).2.
Proof.
  intros Hd. rewrite (ensureTodayJour_healthy w Hd). cbn [snd].
  destruct (store_record true Jour None (today_record w) (st_jour (db w)))
    as [e|[k st]] eqn:Hrec.
  - set (w1 := add_calls _ _).
    assert (Hd1 : device w1 = []) by exact Hd.
    rewrite (ensureTodayJour_healthy w1 Hd1). split; [done|]. cbn [snd].
    change (store_record true Jour None (today_record w1) (st_jour (db w1)))
      with (store_record true Jour None (today_record w) (st_jour (db w))).
    by rewrite Hrec.
  - set (w1 := add_calls _ _).
    assert (Hd1 : device w1 = []) by exact Hd.
    assert (∃ r, recs st !! k = Some r ∧ r !! "jour_title" = Some (Str (today w)))
      as (r & Hk & Hr).
    { revert Hrec. unfold store_record.
      destruct (max_generated <? _); [done|]. cbv beta iota.
      destruct (_ && _); [done|]. case_bool_decide; [done|]. intros [= <- <-].
      eexists. split; [apply lookup_insert_eq|].
      cbn [keyPath]. by rewrite lookup_insert_ne. }
    by apply (ensureTodayJour_existing w1 k r).
Qed.

Lemma ensureTodayJour_idempotent_witness :
  (ensureTodayJour (ensureTodayJour (scenario_start "2024-05-05" "08:00")).2).1
    = Resolved () ∧
  db (ensureTodayJour (ensureTodayJour (scenario_start "2024-05-05" "08:00")).2).2
    = db (ensureTodayJour (scenario_start "2024-05-05" "08:00")).2.
Proof.
  apply (ensureTodayJour_idempotent (scenario_start "2024-05-05" "08:00")).
  reflexivity.
Defined.

(** ** After a cascade *)

Lemma without_journal_index T st :
  index_records "jour_title" (KStr T) (without_journal T st) = [].
Proof.
  apply elem_of_nil_inv. intros r (k & Hk & Hr)%elem_of_index_records.
  simpl in Hk. apply map_lookup_filter_Some in Hk as [_ Hne]. by destruct Hne.
Qed.

Lemma find_stored_title (st : store) (T : utf16) (kt : key) (target : obj) :
  store_wf Jour st →
  recs st !! kt = Some target →
  target !! "jour_title" = Some (Str T) →
  List.find (λ j, strict_eq (get j "jour_title") (Str T)) (records st) = Some target.
Proof.
  intros Hwf Hk Ht.
  assert (Hix : Index "jour_title" "jour_title" true ∈ indexes Jour)
    by (simpl; apply list_elem_of_singleton; done).
  destruct (List.find _ (records st)) as [t'|] eqn:Hfind.
  - apply find_some in Hfind as [Hin Htitle].
    apply list_elem_of_In, elem_of_records in Hin as [k' Hk'].
    apply strict_eq_Str in Htitle.
    assert (k' = kt) as ->; [|congruence].
    eapply (wf_unique _ _ Hwf _ k' kt t' target Hix); eauto.
    + exists (KStr T). by apply index_key_Some.
    + simpl. transitivity (Some (KStr T)); [|symmetry]; by apply index_key_Some.
  - assert (In target (records st)) as Hin
      by (apply list_elem_of_In, elem_of_records; eauto).
    pose proof (find_none _ _ Hfind target Hin) as Hnone. simpl in Hnone.
    by rewrite (proj2 (strict_eq_Str target T) Ht) in Hnone.
Qed.

Lemma store_record_generated b s v st0 k st :
  store_record b s None v st0 = inr (k, st) →
  k = KNum (gen st0) ∧ gen st0 ≤ max_generated ∧
  st = Store (gen st0 + 1)
             (<[KNum (gen st0) := <[keyPath s := Num (gen st0)]> v]> (recs st0)).
Proof.
  unfold store_record.
  destruct (max_generated <? gen st0) eqn:Hmax; [done|]. cbv beta iota.
  destruct (_ && _); [done|]. case_bool_decide; [done|].
  intros [= <- <-]. repeat split. lia.
Qed.

(** X22: what a successful cascade leaves.  On a consistent database with a
    journal of title [T] stored and a device that does not fail,
    [deleteJour T] resolves; afterwards no memo and no task of [T] is left,
    every memo and task of another journal is exactly as before, the key of
    the deleted journal is free (and is not handed out again), no journal of
    title [T] is left unless [T] is today's date, and the active journal is
    today. *)
Theorem deleteJour_leaves_no_dependents (w : world) (T : utf16) (kt : key)
    (target : obj) :
  device w = [] →
  database_wf (db w) →
  recs (st_jour (db w)) !! kt = Some target →
  target !! "jour_title" = Some (Str T) →
  let w' := (deleteJour (Str T) w).2 in
  (deleteJour (Str T) w).1 = Resolved () ∧
  st_memos (db w') = without_journal T (st_memos (db w)) ∧
  st_tasks (db w') = without_journal T (st_tasks (db w)) ∧
  index_records "jour_title" (KStr T) (st_memos (db w')) = [] ∧
  index_records "jour_title" (KStr T) (st_tasks (db w')) = [] ∧
  (∀ s k r, s ≠ Jour → recs (objectStore (db w) s) !! k = Some r →
            r !! "jour_title" ≠ Some (Str T) →
            recs (objectStore (db w') s) !! k = Some r) ∧
  recs (st_jour (db w')) !! kt = None ∧
  (T ≠ today w → index_records "jour_title" (KStr T) (st_jour (db w')) = []) ∧
  currentJourTitle w' = Str (today w).
Proof.
  intros Hd Hwf Hkt Htitle w'. subst w'.
  assert (Hix : Index "jour_title" "jour_title" true ∈ indexes Jour)
    by (simpl; apply list_elem_of_singleton; done).
  assert (Huniq : ∀ k r, recs (st_jour (db w)) !! k = Some r →
            r !! "jour_title" = Some (Str T) → k = kt).
  { intros k r Hk Hr.
    eapply (wf_unique _ _ (Hwf Jour) _ k kt r target Hix); eauto.
    - exists (KStr T). by apply index_key_Some.
    - simpl. transitivity (Some (KStr T)); [|symmetry]; by apply index_key_Some. }
  rewrite deleteJour_unfold by done.
  rewrite (find_stored_title (st_jour (db w)) T kt target (Hwf Jour) Hkt Htitle).
  assert (Hid : get target "jour_id" = of_key kt).
  { pose proof (wf_inline _ _ (Hwf Jour) _ _ Hkt) as Hi. simpl in Hi.
    unfold get. by rewrite Hi. }
  rewrite (cascade_run w T target kt) by done.
  set (st0 := Store (gen (st_jour (db w))) (delete kt (recs (st_jour (db w))))).
  set (w0 := add_toast JourDeleted _).
  assert (Hd0 : device w0 = []) by exact Hd.
  rewrite (ensureTodayJour_healthy w0 Hd0). cbn [fst snd].
  change (st_jour (db w0)) with st0. change (today w0) with (today w).
  assert (Hother : ∀ stj s k r, s ≠ Jour →
            recs (objectStore (db w) s) !! k = Some r →
            r !! "jour_title" ≠ Some (Str T) →
            recs (objectStore
                    (Database stj (without_journal T (st_memos (db w)))
                                  (without_journal T (st_tasks (db w)))) s) !! k
            = Some r).
  { intros stj s k r Hs Hk Hr. destruct s; [done| |]; simpl;
      by apply map_lookup_filter_Some. }
  destruct (store_record true Jour None (today_record w0) st0)
    as [e|[k st]] eqn:Hrec.
  - subst w0.
    cbn [db add_calls set_heroTitle add_toast add_call ensure_prelude set_todayPill
         set_currentJourTitle set_db currentJourTitle st_memos st_tasks st_jour
         with_store].
    split; [done|]. split; [done|]. split; [done|].
    split; [apply without_journal_index|]. split; [apply without_journal_index|].
    split; [apply Hother|]. split; [apply lookup_delete_eq|]. split; [|done].
    intros Hne. apply elem_of_nil_inv. intros r (k & Hk & Hr)%elem_of_index_records.
    simpl in Hk. apply lookup_delete_Some in Hk as [Hk1 Hk2].
    destruct Hk1. symmetry. by apply (Huniq k r).
  - apply store_record_generated in Hrec as (-> & Hg & ->). subst w0.
    cbn [db add_calls set_heroTitle add_toast add_call ensure_prelude set_todayPill
         set_currentJourTitle set_db currentJourTitle st_memos st_tasks st_jour
         with_store].
    split; [done|]. split; [done|]. split; [done|].
    split; [apply without_journal_index|]. split; [apply without_journal_index|].
    split; [apply Hother|].
    assert (Hkt' : kt ≠ KNum (gen st0)).
    { intros Heq. rewrite Heq in Hkt.
      pose proof (wf_gen _ _ (Hwf Jour) _ _ Hkt) as Hlt. simpl in Hg, Hlt. lia. }
    split; [|split; [|done]].
    + cbn [recs]. rewrite lookup_insert_ne by done. apply lookup_delete_eq.
    + intros Hne. apply elem_of_nil_inv.
      intros r (k & Hk & Hr)%elem_of_index_records. cbn [recs] in Hk.
      rewrite lookup_insert in Hk. case_decide.
      * simplify_eq. cbn [keyPath] in Hr. rewrite lookup_insert_ne in Hr by done.
        unfold today_record in Hr. rewrite lookup_insert_eq in Hr.
        simpl in Hr. by simplify_eq.
      * simpl in Hk. apply lookup_delete_Some in Hk as [Hk1 Hk2].
        destruct Hk1. symmetry. by apply (Huniq k r).
Qed.

Lemma deleteJour_leaves_no_dependents_witness :
  (deleteJour (Str "2024-01-01") sample_world).1 = Resolved () ∧
  recs (st_memos (db (deleteJour (Str "2024-01-01") sample_world).2)) = ∅ ∧
  recs (st_jour (db (deleteJour (Str "2024-01-01") sample_world).2)) !! KNum 1 = None.
Proof.
  destruct (deleteJour_leaves_no_dependents sample_world "2024-01-01" (KNum 1)
              sample_jour eq_refl sample_db_wf eq_refl eq_refl)
    as (H1 & H2 & _ & _ & _ & _ & H3 & _).
  split; [exact H1|]. split; [|exact H3].
  rewrite H2. by vm_compute.
Defined.

(** ** A cascade cut short *)

Lemma idbGetAll_step s w rest :
  device w = None :: rest →
  idbGetAll s w =
    (Resolved (records (objectStore (db w) s)),
     set_device rest (add_call (GetAll s) w)).
Proof.
  intros Hd. unfold idbGetAll. async_simpl.
  rewrite request_next by (unfold next_fault; simpl; by rewrite Hd).
  simpl. rewrite Hd, with_store_same. simpl. by destruct w.
Qed.

Lemma idbIndexGetAll_step s n v idx k w rest :
  device w = None :: rest → find_index s n = Some idx → to_key v = Some k →
  idbIndexGetAll s n v w =
    (Resolved (index_records (ix_path idx) k (objectStore (db w) s)),
     set_device rest (add_call (IndexGetAll s n v) w)).
Proof.
  intros Hd Hi Hk. unfold idbIndexGetAll. async_simpl. rewrite Hi, Hk.
  rewrite request_next by (unfold next_fault; simpl; by rewrite Hd).
  simpl. rewrite Hd, with_store_same. simpl. by destruct w.
Qed.

Lemma idbDelete_step s v k w rest :
  device w = None :: rest → to_key v = Some k →
  idbDelete s v w =
    (Resolved (),
     set_db (with_store s (Store (gen (objectStore (db w) s))
                                 (delete k (recs (objectStore (db w) s)))) (db w))
            (set_device rest (add_call (Delete s v) w))).
Proof.
  intros Hd Hk. unfold idbDelete. async_simpl. rewrite Hk.
  rewrite request_next by (unfold next_fault; simpl; by rewrite Hd).
  simpl. by rewrite Hd.
Qed.

Lemma idbDelete_fault s v k w f rest :
  device w = Some f :: rest → to_key v = Some k →
  idbDelete s v w =
    (Rejected (DeviceFailure f), set_device rest (add_call (Delete s v) w)).
Proof.
  intros Hd Hk. unfold idbDelete, request. async_simpl. rewrite Hk.
  unfold next_fault. simpl. by rewrite Hd.
Qed.

Lemma for_of_idbDelete_step s p (l : list obj) : ∀ w rest,
  device w = (replicate (List.length l) None ++ rest)%list →
  Forall (λ r, is_Some (key_at p r)) l →
  for_of l (λ r, idbDelete s (get r p)) w =
    (Resolved (),
     set_db (with_store s
               (Store (gen (objectStore (db w) s))
                      (remove_keys (omap (key_at p) l) (recs (objectStore (db w) s))))
               (db w))
            (set_device rest (add_calls ((λ r, Delete s (get r p)) <$> l) w))).
Proof.
  induction l as [|r l IH]; intros w rest Hd Hall.
  - simpl in *. unfold mret, async_ret.
    rewrite store_eta, with_store_same, add_calls_nil. rewrite <- Hd.
    by rewrite set_device_same, set_db_same.
  - apply Forall_cons in Hall as [[k Hk] Hall]. simpl in *.
    unfold mbind, async_bind.
    rewrite (idbDelete_step _ _ k _ (replicate (List.length l) None ++ rest)) by done.
    rewrite (IH _ rest) by done. simpl. rewrite Hk. simpl.
    rewrite objectStore_with_store, with_store_with_store. simpl.
    unfold set_db, set_device, add_calls, add_call. simpl. by rewrite <- app_assoc.
Qed.

(** X23: the cascade is not atomic.  On a consistent database with a
    journal of title [T] stored, if the device lets the three fetches and all
    the memo and task deletes through and then fails the delete of the
    journal itself, [deleteJour T] rejects with that failure and stops: the
    memos and tasks of [T] are gone, but the journal store is exactly as
    before (the journal is still there, without dependents), no toast is
    shown and the active journal is not reset. *)
Theorem deleteJour_cut_short (w : world) (T : utf16) (kt : key) (target : obj)
    (f : device_fault) (rest : list (option device_fault)) :
  let memos := index_records "jour_title" (KStr T) (st_memos (db w)) in
  let tasks := index_records "jour_title" (KStr T) (st_tasks (db w)) in
  database_wf (db w) →
  recs (st_jour (db w)) !! kt = Some target →
  target !! "jour_title" = Some (Str T) →
  device w = ([None; None; None] ++ replicate (List.length memos) None
              ++ replicate (List.length tasks) None ++ Some f :: rest)%list →
  let r := deleteJour (Str T) w in
  r.1 = Rejected (DeviceFailure f) ∧
  st_memos (db r.2) = without_journal T (st_memos (db w)) ∧
  st_tasks (db r.2) = without_journal T (st_tasks (db w)) ∧
  st_jour (db r.2) = st_jour (db w) ∧
  recs (st_jour (db r.2)) !! kt = Some target ∧
  toasts r.2 = toasts w ∧
  currentJourTitle r.2 = currentJourTitle w ∧
  device r.2 = rest.
Proof.
  intros memos tasks Hwf Hkt Htitle Hd r. subst r.
  assert (Hid : get target "jour_id" = of_key kt).
  { pose proof (wf_inline _ _ (Hwf Jour) _ _ Hkt) as Hi. simpl in Hi.
    unfold get. by rewrite Hi. }
  simpl in Hd. unfold deleteJour, mbind, async_bind.
  rewrite (idbGetAll_step Jour w _ Hd). cbv beta iota.
  change (objectStore (db w) Jour) with (st_jour (db w)).
  rewrite (find_stored_title (st_jour (db w)) T kt target (Hwf Jour) Hkt Htitle).
  set (w1 := set_device _ (add_call (GetAll Jour) w)).
  rewrite (idbIndexGetAll_step Memos "jour_title" (Str T)
             (Index "jour_title" "jour_title" false) (KStr T) w1 _
             eq_refl eq_refl eq_refl).
  set (w2 := set_device _ (add_call (IndexGetAll Memos _ _) w1)).
  rewrite (idbIndexGetAll_step Tasks "jour_title" (Str T)
             (Index "jour_title" "jour_title" false) (KStr T) w2 _
             eq_refl eq_refl eq_refl).
  set (w3 := set_device _ (add_call (IndexGetAll Tasks _ _) w2)).
  change (index_records (ix_path _) (KStr T) (objectStore (db w1) Memos)) with memos.
  change (index_records (ix_path _) (KStr T) (objectStore (db w2) Tasks)) with tasks.
  rewrite (for_of_idbDelete_step Memos "memo_id" memos w3
             (replicate (List.length tasks) None ++ Some f :: rest) eq_refl)
    by apply (index_records_keyed Memos), Hwf.
  set (w4 := set_db _ (set_device _ (add_calls _ w3))).
  rewrite (for_of_idbDelete_step Tasks "id" tasks w4 (Some f :: rest) eq_refl)
    by apply (index_records_keyed Tasks), Hwf.
  set (w5 := set_db _ (set_device _ (add_calls _ w4))).
  rewrite (idbDelete_fault Jour _ kt w5 f rest eq_refl)
    by (by rewrite Hid, to_key_of_key).
  pose proof (remove_index_records Memos _ T (Hwf Memos)) as Hm.
  pose proof (remove_index_records Tasks _ T (Hwf Tasks)) as Ht.
  cbn [keyPath objectStore] in Hm, Ht. fold memos tasks in Hm, Ht.
  subst w5 w4 w3 w2 w1.
  cbn [objectStore db set_db set_device add_calls add_call with_store st_jour
       st_memos st_tasks gen recs fst snd toasts currentJourTitle device].
  rewrite Hm, Ht. by repeat split.
Qed.

Lemma deleteJour_cut_short_witness :
  let w := set_device [None; None; None; None; None; Some QuotaExceededError]
                      sample_world in
  (deleteJour (Str "2024-01-01") w).1 = Rejected (DeviceFailure QuotaExceededError) ∧
  recs (st_memos (db (deleteJour (Str "2024-01-01") w).2)) = ∅ ∧
  recs (st_tasks (db (deleteJour (Str "2024-01-01") w).2)) = ∅ ∧
  recs (st_jour (db (deleteJour (Str "2024-01-01") w).2)) !! KNum 1 = Some sample_jour.
Proof.
  intros w.
  destruct (deleteJour_cut_short w "2024-01-01" (KNum 1) sample_jour
              QuotaExceededError [] sample_db_wf eq_refl eq_refl)
    as (H1 & H2 & H3 & _ & H4 & _).
  - by vm_compute.
  - split; [exact H1|]. split; [rewrite H2; by vm_compute|].
    split; [rewrite H3; by vm_compute|exact H4].
Defined.

(** ** Whole sessions *)

Lemma handler_wf a : preserves_wf (handler a).
Proof.
  destruct actions_preserve_wf as (_ & _ & ? & ? & ? & ? & ? & ? & ? & ?).
  destruct a; simpl; auto using ensureTodayJour_wf, renderTasks_wf.
  intros w Hw. by rewrite renderJour_db.
Qed.

Lemma session_wf acts : ∀ w, database_wf (db w) → database_wf (db (session acts w)).
Proof.
  induction acts as [|a acts IH]; intros w Hw; simpl; [done|].
  apply IH. by apply handler_wf.
Qed.

(** X24: whatever the user does.  Starting from the database [openDB]
    creates, after any sequence of actions (with any records passed to edit
    and toggle, any dialog answers, any device failures and whatever way each
    action settles) the database is consistent: no two journals have the same
    title, every record carries its own key at the key path of its store, and
    every numeric key is below the key generator of its store. *)
Theorem session_keeps_database_consistent (acts : list action) (w : world) :
  db w = openDB None →
  let d := db (session acts w) in
  database_wf d ∧
  (∀ k1 k2 r1 r2 T,
     recs (st_jour d) !! k1 = Some r1 → recs (st_jour d) !! k2 = Some r2 →
     r1 !! "jour_title" = Some (Str T) → r2 !! "jour_title" = Some (Str T) →
     k1 = k2) ∧
  (∀ s k r, recs (objectStore d s) !! k = Some r → get r (keyPath s) = of_key k) ∧
  (∀ s z r, recs (objectStore d s) !! KNum z = Some r →
            Z.min z max_generated < gen (objectStore d s)).
Proof.
  intros Hdb d.
  assert (Hwf : database_wf d).
  { apply session_wf. rewrite Hdb. apply upgraded_wf. }
  split; [done|]. split; [|split].
  - intros k1 k2 r1 r2 T Hk1 Hk2 Hr1 Hr2.
    assert (Hix : Index "jour_title" "jour_title" true ∈ indexes Jour)
      by (simpl; apply list_elem_of_singleton; done).
    eapply (wf_unique _ _ (Hwf Jour) _ k1 k2 r1 r2 Hix); eauto.
    + exists (KStr T). by apply index_key_Some.
    + simpl. transitivity (Some (KStr T)); [|symmetry]; by apply index_key_Some.
  - intros s k r Hk. unfold get. by rewrite (wf_inline _ _ (Hwf s) _ _ Hk).
  - intros s z r Hk. by apply (wf_gen _ _ (Hwf s) _ _ Hk).
Qed.

Lemma session_keeps_database_consistent_witness :
  let w := set_dialog [Some (lit "memo"); Some (lit "task")]
             (set_device [None; Some UnknownError]
                (scenario_start "2024-05-05" "08:00")) in
  let acts := [NewToday; AddMemo; NewToday; AddTask; RefreshJournals; RefreshTasks;
               Toggle {[ "id" := Num 1; "done" := Bool true ]};
               DeleteJournal (Str "2024-05-05"); Open Null] in
  database_wf (db (session acts w)).
Proof.
  intros w acts.
  destruct (session_keeps_database_consistent acts w eq_refl) as [H _].
  exact H.
Defined.

(** X25: first start.  On the freshly created database and with a device
    that does not fail, [main] resolves having created exactly one record:
    today's journal, under key 1, which is also the active journal; the
    toasts shown are the created-toast and the started-toast. *)
Theorem main_first_start (w : world) :
  db w = openDB None →
  device w = [] →
  (main w).1 = Resolved () ∧
  db (main w).2 =
    Database (Store 2 {[ KNum 1 := {[ "jour_id" := Num 1;
                                      "jour_title" := Str (today w);
                                      "created_at" := Str (now w) ]} ]})
             new_store new_store ∧
  currentJourTitle (main w).2 = Str (today w) ∧
  toasts (main w).2 = (toasts w ++ [JourCreated; Started])%list.
Proof.
  intros Hdb Hd. unfold main, mbind, async_bind.
  rewrite ensureTodayJour_healthy by done. rewrite Hdb.
  assert (store_record true Jour None (today_record w) (st_jour (openDB None))
          = inr (KNum 1, Store 2 {[ KNum 1 := {[ "jour_id" := Num 1;
                                      "jour_title" := Str (today w);
                                      "created_at" := Str (now w) ]} ]})) as ->
    by (vm_compute; reflexivity).
  unfold toast, effect. simpl. rewrite <- app_assoc. by repeat split.
Qed.

Lemma main_first_start_witness :
  (main (scenario_start "2024-05-05" "08:00")).1 = Resolved () ∧
  toasts (main (scenario_start "2024-05-05" "08:00")).2 = [JourCreated; Started].
Proof.
  destruct (main_first_start (scenario_start "2024-05-05" "08:00") eq_refl eq_refl)
    as (H1 & _ & _ & H2).
  split; [exact H1|exact H2].
Defined.

(** ** Failures of a write *)

Lemma request_fault {A} s (op : store → error + A * store) w f :
  next_fault w = Some f →
  request s op w = (Rejected (DeviceFailure f), set_device (tail (device w)) w).
Proof. intros Hf. unfold request. by rewrite Hf. Qed.

(** X26: unlike [ensureTodayJour], the other actions do not catch.  When the
    device fails the write of an add (text not blank), an edit (text not
    blank), a delete of a memo or task, or a toggle, the action rejects with
    that very failure, writes nothing, shows no toast and does not
    re-render: the failed write is the last call it makes and the only
    request it places. *)
Theorem write_failure_propagates (w : world) (f : device_fault) (text : utf16)
    (rest : list (option utf16)) (memo task : obj) (v : value) :
  next_fault w = Some f →
  (dialog w = Some text :: rest → trim text ≠ [] →
   propagates f
     (Add Memos {[ "memo_title" := Str (trim text);
                   "jour_title" := currentJourTitle w;
                   "created_at" := Str (now w) ]})
     addMemo w ∧
   propagates f
     (Add Tasks {[ "title" := Str (trim text); "done" := Num 0;
                   "jour_title" := currentJourTitle w;
                   "created_at" := Str (now w) ]})
     addTask w ∧
   (extract_key memo "memo_id" ≠ Invalid →
    propagates f (Put Memos (<["memo_title" := Str (trim text)]> memo))
      (editMemo memo) w)) ∧
  (is_Some (to_key v) →
   propagates f (Delete Memos v) (deleteMemo v) w ∧
   propagates f (Delete Tasks v) (deleteTask v) w) ∧
  (extract_key task "id" ≠ Invalid →
   propagates f (Put Tasks (toggled task)) (toggleTaskDone task) w).
Proof.
  intros Hf.
  assert (Hput : ∀ s r w0, next_fault w0 = Some f →
            extract_key r (keyPath s) ≠ Invalid →
            idbPut s r w0 = (Rejected (DeviceFailure f),
                             set_device (tail (device w0)) (add_call (Put s r) w0))).
  { intros s r w0 Hw0 Hr. unfold idbPut, key_of_value.
    destruct (extract_key r (keyPath s)); [|done|]; async_simpl;
      by rewrite (request_fault _ _ (add_call (Put s r) w0) f Hw0). }
  assert (Hadd : ∀ s r w0, next_fault w0 = Some f →
            extract_key r (keyPath s) = Absent →
            idbAdd s r w0 = (Rejected (DeviceFailure f),
                             set_device (tail (device w0)) (add_call (Add s r) w0))).
  { intros s r w0 Hw0 Hr. unfold idbAdd, key_of_value. rewrite Hr. async_simpl.
    by rewrite (request_fault _ _ (add_call (Add s r) w0) f Hw0). }
  assert (Hdel : ∀ s k, to_key v = Some k →
            idbDelete s v w = (Rejected (DeviceFailure f),
                               set_device (tail (device w)) (add_call (Delete s v) w))).
  { intros s k Hk. unfold idbDelete. async_simpl. rewrite Hk.
    by rewrite (request_fault _ _ (add_call (Delete s v) w) f Hf). }
  assert (Hbind : ∀ (m : async value) (k : value → async unit) w0 w1,
            m w0 = (Rejected (DeviceFailure f), w1) →
            (m ≫= k) w0 = (Rejected (DeviceFailure f), w1)).
  { intros m k w0 w1 Hm. unfold mbind, async_bind. by rewrite Hm. }
  assert (Hbindu : ∀ (m : async unit) (k : unit → async unit) w0 w1,
            m w0 = (Rejected (DeviceFailure f), w1) →
            (m ≫= k) w0 = (Rejected (DeviceFailure f), w1)).
  { intros m k w0 w1 Hm. unfold mbind, async_bind. by rewrite Hm. }
  split; [|split].
  - intros Hdlg Htext.
    assert (Hf' : next_fault (set_dialog rest w) = Some f) by exact Hf.
    split; [|split].
    + unfold propagates.
      replace (addMemo w) with
        ((idbAdd Memos {[ "memo_title" := Str (trim text);
                          "jour_title" := currentJourTitle w;
                          "created_at" := Str (now w) ]};;
          toast MemoAdded;; renderMemos) (set_dialog rest w)).
      2:{ unfold addMemo, promptModal. unfold mbind at 3. unfold async_bind at 3.
          rewrite Hdlg. by rewrite truthy_Str. }
      by erewrite Hbind by (apply Hadd; [exact Hf'|reflexivity]).
    + unfold propagates.
      replace (addTask w) with
        ((idbAdd Tasks {[ "title" := Str (trim text); "done" := Num 0;
                          "jour_title" := currentJourTitle w;
                          "created_at" := Str (now w) ]};;
          toast TaskAdded;; renderTasks) (set_dialog rest w)).
      2:{ unfold addTask, promptModal. unfold mbind at 3. unfold async_bind at 3.
          rewrite Hdlg. by rewrite truthy_Str. }
      by erewrite Hbind by (apply Hadd; [exact Hf'|reflexivity]).
    + intros Hm. unfold propagates.
      replace (editMemo memo w) with
        ((idbPut Memos (<["memo_title" := Str (trim text)]> memo);;
          toast MemoUpdated;; renderMemos) (set_dialog rest w)).
      2:{ unfold editMemo, promptModal. unfold mbind at 3. unfold async_bind at 3.
          rewrite Hdlg. simpl strict_eq. cbv iota. by rewrite truthy_Str. }
      erewrite Hbind; [|apply Hput; [exact Hf'|]]; [done|].
      unfold extract_key in *. cbn [keyPath] in *. by rewrite lookup_insert_ne.
  - intros [k Hk]. unfold propagates, deleteMemo, deleteTask.
    by rewrite !(Hbindu _ _ _ _ (Hdel _ k Hk)).
  - intros Ht. unfold propagates, toggleTaskDone. fold (toggled task).
    erewrite Hbind; [|apply Hput; [exact Hf|]]; [done|].
    unfold extract_key, toggled in *. cbn [keyPath] in *. by rewrite lookup_insert_ne.
Qed.

Lemma write_failure_propagates_witness :
  let w := set_dialog [Some (lit "memo")]
             (set_device [Some QuotaExceededError] sample_world) in
  propagates QuotaExceededError
    (Add Memos {[ "memo_title" := Str "memo"; "jour_title" := Str "2024-01-01";
                  "created_at" := Str "10:00" ]})
    addMemo w ∧
  propagates QuotaExceededError (Delete Tasks (Num 1)) (deleteTask (Num 1)) w ∧
  propagates QuotaExceededError (Put Tasks (toggled sample_task))
    (toggleTaskDone sample_task) w.
Proof.
  intros w.
  destruct (write_failure_propagates w QuotaExceededError (lit "memo") [] sample_memo
              sample_task (Num 1) eq_refl) as (Hadd & Hdel & Htoggle).
  destruct Hadd as (Hm & _ & _); [reflexivity|by vm_compute|].
  destruct Hdel as (_ & Ht); [by eexists|].
  split; [exact Hm|]. split; [exact Ht|]. apply Htoggle. by vm_compute.
Defined.
